(** * Astro DB configuration: schema validation and collection definition

    A shallow embedding of the database-configuration module of the
    repository:

    - [src/unnamed/part_000]: the zod schemas of fields, collections and
      the db config, [baseDefineCollection], [defineCollection],
      [defineWritableCollection] and the [field] constructors;
    - [src/packages/db/src/config.ts]: the earlier [dbConfigSchema],
      [defineCollection], [defineWritableCollection] and the [field]
      constructors with [baseDefaults].

    JavaScript values are modelled as finite trees ([JS.value]); objects
    are their own enumerable string-keyed properties in enumeration
    order.  The zod combinators the schemas are built from are embedded
    as functions from a value to the parsed value or a failure
    ([Zod.schema]); a failure stands for the [ZodError] that [parse]
    throws.  Field objects, which [baseDefineCollection] and [_setMeta]
    mutate in place and which may be shared, live in a store
    ([Define.store]). *)

From Stdlib Require Import ZArith Lia.
From stdpp Require Import base option list strings gmap.

Open Scope string_scope.

(** ** JavaScript values *)

Module JS.

(** A JavaScript number: [Finite m e] is [m * 2^e].  The schemas only
    distinguish [NaN] from the other numbers; no arithmetic is done on
    them. *)
Inductive number :=
| NaN
| Infinity (negative : bool)
| Finite (mantissa exponent : Z).

(** Values.  [VDate None] is an invalid date.  A function is represented
    by the outcome of a call: [VFun (Some v)] returns [v] and
    [VFun None] throws.  The schemas accept any arguments for the
    functions of a config ([references], [_setMeta]) and validate only
    what they return. *)
Unset Elimination Schemes.
Inductive value :=
| VUndefined
| VNull
| VBool (b : bool)
| VNum (n : number)
| VStr (s : string)
| VDate (time : option Z)
| VArr (items : list value)
| VObj (props : list (string * value))
| VFun (result : option value).
Set Elimination Schemes.

(** Nesting depth of a value; the result of a function counts as nested
    in the function. *)
Fixpoint height (v : value) : nat :=
  match v with
  | VArr items => S (foldr (λ x h, height x `max` h) 0 items)
  | VObj props => S (foldr (λ kv h, height kv.2 `max` h) 0 props)
  | VFun (Some r) => S (height r)
  | _ => 0
  end.

(** [a === b] for primitive values.  Objects, arrays, dates and functions
    are compared by identity in JavaScript; a tree has none, and the
    schemas only compare with string and boolean literals. *)
Definition strict_equals (a b : value) : bool :=
  match a, b with
  | VUndefined, VUndefined => true
  | VNull, VNull => true
  | VBool x, VBool y => bool_decide (x = y)
  | VStr x, VStr y => bool_decide (x = y)
  | _, _ => false
  end.

(** [typeof v === 'undefined'] *)
Definition is_undefined (v : value) : bool :=
  match v with VUndefined => true | _ => false end.

(** *** Objects as property lists *)

Section Props.
Context {V : Type}.

(** [o[k]], [None] when [o] has no own property [k]. *)
Fixpoint get_prop (o : list (string * V)) (k : string) : option V :=
  match o with
  | [] => None
  | (k', v) :: o' => if decide (k = k') then Some v else get_prop o' k
  end.

(** [k in o] *)
Definition has_prop (o : list (string * V)) (k : string) : bool :=
  bool_decide (is_Some (get_prop o k)).

(** [o[k] = v]: an existing property keeps its place. *)
Fixpoint set_prop (k : string) (v : V) (o : list (string * V)) : list (string * V) :=
  match o with
  | [] => [(k, v)]
  | (k', v') :: o' =>
      if decide (k = k') then (k, v) :: o' else (k', v') :: set_prop k v o'
  end.

(** [{...target, ...source}]: the properties of [source] are defined on
    [target] one after the other. *)
Definition spread (target source : list (string * V)) : list (string * V) :=
  foldl (λ o kv, set_prop kv.1 kv.2 o) target source.

(** The object an object literal [{k1: v1, k2: v2, ...}] evaluates to. *)
Definition object_literal (entries : list (string * V)) : list (string * V) :=
  spread [] entries.

(** The keys a [for (const k in o)] loop visits. *)
Definition keys (o : list (string * V)) : list string := o.*1.
End Props.

(** [o[k]] as a value: [undefined] when the property is absent. *)
Definition prop (o : list (string * value)) (k : string) : value :=
  default VUndefined (get_prop o k).

(** The part of the JavaScript runtime that date coercion uses:
    [newDate v] is the time value of [new Date(v)], [None] when the date
    is invalid, and [toISOString t] the result of [toISOString()] on a
    valid date with time value [t]. *)
Class DateRuntime := {
  newDate : value → option Z;
  toISOString : Z → string;
}.

End JS.

(** ** The zod combinators used by the schemas

    zod is a dependency of the repository; the definitions below follow
    its documented behaviour (version 3).  Parsing collects every issue
    before throwing; only whether it throws, and the value it returns
    otherwise, is kept here. *)

Module Zod.
Import JS.

(** A schema maps the input to the parsed output, or fails. *)
Definition schema := value → option value.

Definition z_string : schema :=
  λ v, match v with VStr _ => Some v | _ => None end.

Definition z_boolean : schema :=
  λ v, match v with VBool _ => Some v | _ => None end.

(** [z.number()] refuses [NaN]. *)
Definition z_number : schema :=
  λ v, match v with VNum NaN => None | VNum _ => Some v | _ => None end.

Definition z_literal (lit : value) : schema :=
  λ v, if strict_equals v lit then Some v else None.

Definition z_any : schema := Some.
Definition z_unknown : schema := Some.

Definition z_optional (s : schema) : schema :=
  λ v, match v with VUndefined => Some VUndefined | _ => s v end.

(** [z.union([...])]: the result of the first option that accepts. *)
Fixpoint z_union (options : list schema) : schema :=
  λ v, match options with
       | [] => None
       | s :: rest => match s v with Some r => Some r | None => z_union rest v end
       end.

Definition z_or (a b : schema) : schema := z_union [a; b].

(** [z.lazy(() => s)] *)
Definition z_lazy (getter : unit → schema) : schema := λ v, getter tt v.

(** [s.transform(f)]; [f] may throw. *)
Definition z_transform (s : schema) (f : value → option value) : schema :=
  λ v, s v ≫= f.

(** [z.coerce.date()]: [new Date(input)], refused when invalid. *)
Definition z_coerce_date `{DateRuntime} : schema :=
  λ v, t ← newDate v; Some (VDate (Some t)).

(** [z.function().returns(r)]: the input must be a function; the output
    is a function that calls it and parses what it returns with [r],
    throwing when that fails. *)
Definition z_function_returns (r : schema) : schema :=
  λ v, match v with VFun res => Some (VFun (res ≫= r)) | _ => None end.

(** [z.function()] returns [unknown]. *)
Definition z_function : schema := z_function_returns z_unknown.

(** [z.array(s)] *)
Definition z_array (s : schema) : schema :=
  λ v, match v with VArr items => VArr <$> mapM s items | _ => None end.

(** An object schema is its shape; [extend] adds or overrides keys. *)
Record ZodObject := z_object { shape : list (string * schema) }.

Definition extend (base : ZodObject) (augmentation : list (string * schema)) : ZodObject :=
  z_object (spread (shape base) augmentation).

(** Every key of the shape is parsed from [data[key]]; unknown keys are
    stripped; a key is set in the output when it is in the input or its
    parsed value is not [undefined]. *)
Fixpoint parse_shape (sh : list (string * schema)) (data : list (string * value))
  : option (list (string * value)) :=
  match sh with
  | [] => Some []
  | (k, s) :: rest =>
      r ← s (prop data k);
      out ← parse_shape rest data;
      Some (if has_prop data k || negb (is_undefined r)
            then (k, r) :: out else out)
  end.

(** [z.object(shape).parse]: the input must be a plain object (not
    [null], an array, a date or a function). *)
Definition parse (o : ZodObject) : schema :=
  λ v, match v with VObj data => VObj <$> parse_shape (shape o) data | _ => None end.

(** [z.record(s)]: every key the input enumerates is parsed with [s] and
    set in the output. *)
Definition z_record (s : schema) : schema :=
  λ v, match v with
       | VObj data => VObj <$> mapM (λ k, r ← s (prop data k); Some (k, r)) (keys data)
       | _ => None
       end.

End Zod.

(** ** The schemas of [src/unnamed/part_000] *)

Module Types.
Import JS Zod.

Section Schemas.
Context `{DateRuntime}.

Definition baseFieldSchema : ZodObject := z_object [
  ("label", z_optional z_string);
  ("optional", z_optional z_boolean);
  ("unique", z_optional z_boolean);
  ("name", z_optional z_string);
  ("collection", z_optional z_string)
].

Definition booleanFieldSchema : ZodObject := extend baseFieldSchema [
  ("type", z_literal (VStr "boolean"));
  ("default", z_optional z_boolean)
].

(** [numberFieldSchema] and [textFieldSchema] mention
    [referenceableFieldSchema] under [z.lazy], and
    [referenceableFieldSchema] is their union.  The three are first
    written over the schema [referenceable] that the lazy getter
    returns, and the circle is closed below. *)
Definition numberFieldSchemaF (referenceable : schema) : ZodObject := extend baseFieldSchema [
  ("type", z_literal (VStr "number"));
  ("default", z_optional z_number);
  ("references", z_optional (z_function_returns (z_lazy (λ _, referenceable))));
  ("primaryKey", z_optional z_boolean)
].

Definition textFieldSchemaF (referenceable : schema) : ZodObject := extend baseFieldSchema [
  ("type", z_literal (VStr "text"));
  ("multiline", z_optional z_boolean);
  ("default", z_optional z_string);
  ("references", z_optional (z_function_returns (z_lazy (λ _, referenceable))));
  ("primaryKey", z_optional z_boolean)
].

Definition referenceableFieldSchemaF (referenceable : schema) : schema :=
  z_union [parse (textFieldSchemaF referenceable); parse (numberFieldSchemaF referenceable)].

(** [n] unfoldings of the lazy getter. *)
Fixpoint referenceableFieldSchema_upto (n : nat) : schema :=
  match n with
  | 0 => λ _, None
  | S n => referenceableFieldSchemaF (referenceableFieldSchema_upto n)
  end.

(** A value of height [h] never needs more than [h] unfoldings
    ([referenceableFieldSchema_unfold] below is the equation of the
    source). *)
Definition referenceableFieldSchema : schema :=
  λ v, referenceableFieldSchema_upto (S (height v)) v.

Definition numberFieldSchema : ZodObject := numberFieldSchemaF referenceableFieldSchema.
Definition textFieldSchema : ZodObject := textFieldSchemaF referenceableFieldSchema.

(** [(d) => d.toISOString()] *)
Definition date_toISOString (d : value) : option value :=
  match d with VDate (Some t) => Some (VStr (toISOString t)) | _ => None end.

Definition dateFieldSchema : ZodObject := extend baseFieldSchema [
  ("type", z_literal (VStr "date"));
  ("default", z_optional (z_union [
      z_literal (VStr "now");
      z_transform z_coerce_date date_toISOString ]))
].

Definition jsonFieldSchema : ZodObject := extend baseFieldSchema [
  ("type", z_literal (VStr "json"));
  ("default", z_optional z_unknown)
].

Definition fieldSchema : schema := z_union [
  parse booleanFieldSchema;
  parse numberFieldSchema;
  parse textFieldSchema;
  parse dateFieldSchema;
  parse jsonFieldSchema
].

Definition fieldsSchema : schema := z_record fieldSchema.

(** The type [FieldType]: the [type] tags of the five field schemas. *)
Definition FieldType : list string := ["boolean"; "number"; "text"; "date"; "json"].

Definition indexSchema : ZodObject := z_object [
  ("on", z_or z_string (z_array z_string));
  ("unique", z_optional z_boolean)
].

Definition foreignKeysSchema : ZodObject := z_object [
  ("fields", z_or z_string (z_array z_string));
  ("references", z_function_returns
     (z_lazy (λ _, z_or referenceableFieldSchema (z_array referenceableFieldSchema))))
].

Definition baseCollectionSchema : ZodObject := z_object [
  ("fields", fieldsSchema);
  ("indexes", z_optional (z_record (parse indexSchema)));
  ("foreignKeys", z_optional (z_array (parse foreignKeysSchema)));
  ("table", z_any);
  ("_setMeta", z_optional z_function)
].

Definition readableCollectionSchema : ZodObject := extend baseCollectionSchema [
  ("writable", z_literal (VBool false))
].

Definition writableCollectionSchema : ZodObject := extend baseCollectionSchema [
  ("writable", z_literal (VBool true))
].

Definition collectionSchema : schema :=
  z_union [parse readableCollectionSchema; parse writableCollectionSchema].

Definition collectionsSchema : schema := z_record collectionSchema.

End Schemas.
End Types.

(** ** [src/packages/db/src/config.ts] *)

Module Config.
Import JS Zod.

Definition dbConfigSchema `{DateRuntime} : ZodObject := z_object [
  ("studio", z_optional z_boolean);
  ("collections", z_optional Types.collectionsSchema)
].

(** [{ ...userConfig, writable: false }] *)
Definition defineCollection (userConfig : list (string * value)) : list (string * value) :=
  set_prop "writable" (VBool false) (spread [] userConfig).

Definition defineWritableCollection (userConfig : list (string * value)) : list (string * value) :=
  set_prop "writable" (VBool true) (spread [] userConfig).

Definition baseDefaults : list (string * value) := [
  ("optional", VBool false);
  ("unique", VBool false);
  ("label", VUndefined);
  ("default", VUndefined)
].

(** The [field] constructors.  [opts] is [None] when the argument is
    omitted, and then defaults to [{}]. *)
Module field.
Definition number (opts : option (list (string * value))) : list (string * value) :=
  spread (spread (object_literal [("type", VStr "number")]) baseDefaults) (default [] opts).
Definition boolean (opts : option (list (string * value))) : list (string * value) :=
  spread (spread (object_literal [("type", VStr "boolean")]) baseDefaults) (default [] opts).
Definition text (opts : option (list (string * value))) : list (string * value) :=
  spread (spread (object_literal [("type", VStr "text"); ("multiline", VBool false)])
                 baseDefaults) (default [] opts).
Definition date (opts : option (list (string * value))) : list (string * value) :=
  spread (spread (object_literal [("type", VStr "date")]) baseDefaults) (default [] opts).
Definition json (opts : option (list (string * value))) : list (string * value) :=
  spread (spread (object_literal [("type", VStr "json")]) baseDefaults) (default [] opts).
End field.

End Config.

(** ** [baseDefineCollection] of [src/unnamed/part_000]

    The function writes into the field objects it is given, and
    [_setMeta] writes into them again later, so field objects are
    addresses in a store and two keys (or two collections) may hold the
    same one.  The configuration object and its [fields] record are
    only read, and are values. *)

Module Define.
Import JS.

Definition loc := nat.

Section WithTable.
(** [Table] is declared in [../runtime/index.js] and [getTableName] comes
    from drizzle-orm; both are taken as given. *)
Context {Table : Type} (getTableName : Table → string).

(** [meta.table], which starts as [null]. *)
Inductive table_ref :=
| TNull
| TTable (t : Table).

Record store := Store {
  objects : gmap loc (list (string * value));
  metas : gmap loc table_ref;
}.

(** What a property of a configuration object holds: plain data, or the
    [fields] record, which holds field objects by key. *)
Inductive uvalue :=
| UValue (v : value)
| UFields (fields : list (string * loc)).

(** What a property of a collection object holds: data copied from the
    configuration, the accessor [get table() { return meta.table }], or
    the closure [_setMeta] over [meta] and [userConfig.fields]. *)
Inductive cvalue :=
| CData (u : uvalue)
| CGetTable (meta : loc)
| CSetMeta (meta : loc) (fields : list (string * loc)).

(** [userConfig.fields], typed as a record of field objects; a
    [for ... in] over a missing [fields] visits nothing. *)
Definition config_fields (userConfig : list (string * uvalue)) : list (string * loc) :=
  match get_prop userConfig "fields" with
  | Some (UFields fields) => fields
  | _ => []
  end.

(** [field[k] = v] on the field object at [field]. *)
Definition assign (field : loc) (k : string) (v : value) (σ : store) : store :=
  Store (alter (set_prop k v) field (objects σ)) (metas σ).

(** The body [{ const field = fields[fieldName]; field[k] = f(fieldName) }]
    of the loops over the fields, run for the keys [ks] one after the
    other. *)
Definition visit (fields : list (string * loc)) (k : string) (f : string → value)
    (ks : list string) (σ : store) : store :=
  foldl (λ σ fieldName,
           match get_prop fields fieldName with
           | Some field => assign field k (f fieldName) σ
           | None => σ
           end) σ ks.

(** [for (const fieldName in fields) { const field = fields[fieldName]; field[k] = f(fieldName) }] *)
Definition for_in_fields (fields : list (string * loc)) (k : string) (f : string → value)
    (σ : store) : store :=
  visit fields k f (keys fields) σ.

(** The closure [_setMeta], over [meta] and [userConfig.fields], called
    with [{ table }]: [Object.assign(meta, values)] sets [meta.table],
    whose name every field then gets as [collection]. *)
Definition _setMeta (meta : loc) (fields : list (string * loc)) (table : Table)
    (σ : store) : store :=
  let σ := Store (objects σ) (<[meta := TTable table]> (metas σ)) in
  let tableName := getTableName table in
  for_in_fields fields "collection" (λ _, VStr tableName) σ.

(** The spread [...userConfig] copies the properties of the
    configuration as data. *)
Definition baseDefineCollection (userConfig : list (string * uvalue)) (writable : bool)
    (σ : store) : list (string * cvalue) * store :=
  let σ := for_in_fields (config_fields userConfig) "name" VStr σ in
  let meta := fresh (dom (metas σ)) in
  let σ := Store (objects σ) (<[meta := TNull]> (metas σ)) in
  (spread (spread [] (prod_map id CData <$> userConfig)) [
     ("table", CGetTable meta);
     ("writable", CData (UValue (VBool writable)));
     ("_setMeta", CSetMeta meta (config_fields userConfig)) ],
   σ).

Definition defineCollection (userConfig : list (string * uvalue)) :=
  baseDefineCollection userConfig false.

Definition defineWritableCollection (userConfig : list (string * uvalue)) :=
  baseDefineCollection userConfig true.

(** *** Reading a collection *)

(** [collection[k]]: a data property gives its value, the accessor
    reads the [meta] cell. *)
Definition read_prop (collection : list (string * cvalue)) (k : string) (σ : store)
    : option (cvalue + table_ref) :=
  match get_prop collection k with
  | Some (CGetTable meta) => inr <$> metas σ !! meta
  | Some c => Some (inl c)
  | None => None
  end.

(** [collection.table] *)
Definition table (collection : list (string * cvalue)) (σ : store) : option table_ref :=
  match read_prop collection "table" σ with
  | Some (inr t) => Some t
  | _ => None
  end.

(** [collection._setMeta({ table })] *)
Definition call_setMeta (collection : list (string * cvalue)) (t : Table) (σ : store)
    : option store :=
  match get_prop collection "_setMeta" with
  | Some (CSetMeta meta fields) => Some (_setMeta meta fields t σ)
  | _ => None
  end.

(** [collection.fields] *)
Definition fields_of (collection : list (string * cvalue)) : list (string * loc) :=
  match get_prop collection "fields" with
  | Some (CData (UFields fields)) => fields
  | _ => []
  end.

(** [field[k]] for the field object at [field] *)
Definition field_prop (σ : store) (field : loc) (k : string) : option value :=
  objects σ !! field ≫= λ o, get_prop o k.

End WithTable.

Arguments table_ref : clear implicits.
Arguments store : clear implicits.
Arguments TNull {Table}.

End Define.

(** ** A runtime to evaluate examples with *)

Module Sample.
Import JS.

(** Decimal digits of [n], padded with zeros to [width] digits. *)
Fixpoint digits (width : nat) (n : Z) : string :=
  match width with
  | O => EmptyString
  | S w =>
      digits w (n / 10) +:+
      String (Ascii.ascii_of_nat (48 + Z.to_nat (n mod 10))) EmptyString
  end.

(** Year, month and day of the day [days] after 1970-01-01 in the
    proleptic Gregorian calendar. *)
Definition civil_from_days (days : Z) : Z * Z * Z :=
  let z := (days + 719468)%Z in
  let era := (z / 146097)%Z in
  let doe := (z - era * 146097)%Z in
  let yoe := ((doe - doe / 1460 + doe / 36524 - doe / 146096) / 365)%Z in
  let doy := (doe - (365 * yoe + yoe / 4 - yoe / 100))%Z in
  let mp := ((5 * doy + 2) / 153)%Z in
  let d := (doy - (153 * mp + 2) / 5 + 1)%Z in
  let m := (if (mp <? 10)%Z then mp + 3 else mp - 9)%Z in
  let y := (yoe + era * 400 + (if (m <=? 2)%Z then 1 else 0))%Z in
  (y, m, d).

(** [Date.prototype.toISOString] on the time value [t]. *)
Definition iso_string (t : Z) : string :=
  let '(y, m, d) := civil_from_days (t / 86400000) in
  let ms := (t mod 86400000)%Z in
  let year :=
    if ((0 <=? y) && (y <=? 9999))%Z then digits 4 y
    else (if (y <? 0)%Z then "-" else "+") +:+ digits 6 (Z.abs y) in
  year +:+ "-" +:+ digits 2 m +:+ "-" +:+ digits 2 d +:+ "T" +:+
  digits 2 (ms / 3600000) +:+ ":" +:+ digits 2 (ms / 60000 mod 60) +:+ ":" +:+
  digits 2 (ms / 1000 mod 60) +:+ "." +:+ digits 3 (ms mod 1000) +:+ "Z".

(** [new Date(v)] for a date, a number (truncated, and invalid outside
    the range of time values), a boolean and [null].  Date strings, whose
    parsing is left to the implementation, and objects are not coerced
    by this instance. *)
Definition time_value (v : value) : option Z :=
  match v with
  | VDate t => t
  | VNum (Finite m e) =>
      let t := (if (0 <=? e) then m * 2 ^ e else Z.quot m (2 ^ (- e)))%Z in
      if (Z.abs t <=? 8640000000000000)%Z then Some t else None
  | VBool b => Some (if b then 1 else 0)%Z
  | VNull => Some 0%Z
  | _ => None
  end.

Definition runtime : DateRuntime := {| newDate := time_value; toISOString := iso_string |}.

(** A table of which [getTableName] gives the name. *)
Record sqlite_table := SqliteTable { table_name : string; table_columns : list string }.

(** A store with two field objects, a configuration over them, and a
    table. *)
Definition blog_store : Define.store sqlite_table :=
  Define.Store {[ 0 := [("type", VStr "number"); ("primaryKey", VBool true)];
                  1 := [("type", VStr "text")] ]} ∅.

Definition blog_config : list (string * Define.uvalue) := [
  ("fields", Define.UFields [("id", 0); ("title", 1)]);
  ("indexes", Define.UValue (VObj [("by_title", VObj [("on", VStr "title")])]))
].

Definition posts : sqlite_table := SqliteTable "Post" ["id"; "title"].

(** A configuration for [config.ts]. *)
Definition site_config : list (string * value) := [
  ("fields", VObj [("title", VObj [("type", VStr "text")])]);
  ("data", VFun (Some (VArr [])))
].

(** Options for a field. *)
Definition title_opts : list (string * value) :=
  [("label", VStr "Title"); ("optional", VBool true)].

End Sample.

(** ** The [field] constructors of [src/unnamed/part_000] and the
    astro config schema of [config.ts] *)

Module Constructors.
Import JS.

(** [{ type: 'number', ...opts }]: [opts] is [None] when the argument is
    omitted; spreading [undefined] adds nothing. *)
Module field.
Definition number (opts : option (list (string * value))) : list (string * value) :=
  spread (object_literal [("type", VStr "number")]) (default [] opts).
Definition boolean (opts : option (list (string * value))) : list (string * value) :=
  spread (object_literal [("type", VStr "boolean")]) (default [] opts).
Definition text (opts : option (list (string * value))) : list (string * value) :=
  spread (object_literal [("type", VStr "text")]) (default [] opts).
Definition date (opts : option (list (string * value))) : list (string * value) :=
  spread (object_literal [("type", VStr "date")]) (default [] opts).
Definition json (opts : option (list (string * value))) : list (string * value) :=
  spread (object_literal [("type", VStr "json")]) (default [] opts).
End field.

End Constructors.

Module AstroConfig.
Import JS Zod.

Definition astroConfigWithDbSchema `{DateRuntime} : ZodObject := z_object [
  ("db", z_optional (parse Config.dbConfigSchema))
].

End AstroConfig.

(** ** A runtime that also parses ISO strings *)

Module SampleIso.
Import Stdlib.Strings.Ascii.
Import JS.

Definition digit_of (c : Ascii.ascii) : option Z :=
  let n := Z.of_nat (Ascii.nat_of_ascii c) in
  if ((48 <=? n) && (n <=? 57))%Z then Some (n - 48)%Z else None.

Fixpoint number_of (cs : list Ascii.ascii) (acc : Z) : option Z :=
  match cs with
  | [] => Some acc
  | c :: cs => d ← digit_of c; number_of cs (acc * 10 + d)%Z
  end.

(** Days from 1970-01-01 to the day [d] of month [m] of year [y]. *)
Definition days_from_civil (y m d : Z) : Z :=
  let y' := (if m <=? 2 then y - 1 else y)%Z in
  let era := (y' / 400)%Z in
  let yoe := (y' - era * 400)%Z in
  let mp := (if 2 <? m then m - 3 else m + 9)%Z in
  let doy := ((153 * mp + 2) / 5 + d - 1)%Z in
  let doe := (yoe * 365 + yoe / 4 - yoe / 100 + doy)%Z in
  (era * 146097 + doe - 719468)%Z.

(** [Date.parse] on a string of the form [YYYY-MM-DDTHH:mm:ss.sssZ],
    which [toISOString] produces for the years 0 to 9999; the date must
    exist and the time be within the day. *)
Definition parse_iso (s : string) : option Z :=
  match String.list_ascii_of_string s with
  | [y1; y2; y3; y4; "-"; m1; m2; "-"; d1; d2; "T";
     h1; h2; ":"; i1; i2; ":"; s1; s2; "."; f1; f2; f3; "Z"]%char =>
      y ← number_of [y1; y2; y3; y4] 0;
      m ← number_of [m1; m2] 0;
      d ← number_of [d1; d2] 0;
      h ← number_of [h1; h2] 0;
      i ← number_of [i1; i2] 0;
      sec ← number_of [s1; s2] 0;
      f ← number_of [f1; f2; f3] 0;
      let days := days_from_civil y m d in
      if bool_decide (Sample.civil_from_days days = (y, m, d))
         && (h <=? 23)%Z && (i <=? 59)%Z && (sec <=? 59)%Z
      then Some (days * 86400000 + h * 3600000 + i * 60000 + sec * 1000 + f)%Z
      else None
  | _ => None
  end.

(** [new Date(v)]: a string is parsed, anything else is coerced as in
    [Sample.time_value]. *)
Definition time_value (v : value) : option Z :=
  match v with
  | VStr s => parse_iso s
  | _ => Sample.time_value v
  end.

Definition runtime : DateRuntime :=
  {| newDate := time_value; toISOString := Sample.iso_string |}.

(** A collection with a date field and a text field that references a
    number field. *)
Definition events : list (string * value) := [
  ("fields", VObj [
     ("at", VObj [("type", VStr "date"); ("default", VNum (Finite 1700000000000 0))]);
     ("host", VObj [("type", VStr "text");
                    ("references", VFun (Some (VObj [("type", VStr "number")])))]) ]);
  ("indexes", VObj [("by_host", VObj [("on", VStr "host"); ("unique", VBool false)])]);
  ("writable", VBool true)
].

(** A number field with a default and a key that no schema names. *)
Definition score : list (string * value) :=
  [("type", VStr "number"); ("default", VNum (Finite 3 0)); ("colour", VStr "red")].

(** A date field whose default is a time in milliseconds. *)
Definition starts : list (string * value) :=
  [("type", VStr "date"); ("default", VNum (Finite 1700000000000 0))].

(** A configuration whose two keys hold the same field object. *)
Definition aliased_config : list (string * Define.uvalue) :=
  [("fields", Define.UFields [("id", 0); ("key", 0); ("title", 1)])].

End SampleIso.

(** * Properties *)

(** ** Property lists *)

Module PropsFacts.
Import JS.

Section Props.
Context {V : Type}.
Implicit Types (o target source : list (string * V)) (k : string) (v : V).

Lemma get_prop_set_eq o k v : get_prop (set_prop k v o) k = Some v.
Proof.
  induction o as [|[k' v'] o IH]; simpl.
  - by rewrite decide_True.
  - destruct (decide (k = k')) as [->|Hne]; simpl.
    + by rewrite decide_True.
    + by rewrite decide_False.
Qed.

Lemma get_prop_set_ne o k k' v : k ≠ k' → get_prop (set_prop k v o) k' = get_prop o k'.
Proof.
  intros Hne. induction o as [|[k0 v0] o IH]; simpl.
  - by rewrite decide_False.
  - destruct (decide (k = k0)) as [->|Hne0]; simpl.
    + by rewrite !decide_False.
    + by rewrite IH.
Qed.

Lemma get_prop_set o k k' v :
  get_prop (set_prop k v o) k' = if decide (k = k') then Some v else get_prop o k'.
Proof.
  case_decide as Hk; [subst; apply get_prop_set_eq | by apply get_prop_set_ne].
Qed.

Lemma get_prop_app o1 o2 k :
  get_prop (o1 ++ o2) k = match get_prop o1 k with Some v => Some v | None => get_prop o2 k end.
Proof.
  induction o1 as [|[k' v'] o1 IH]; simpl; [done|]. by case_decide.
Qed.

(** In [{...target, ...source}] the last entry of [source] for a key
    wins, and [target] shows through for the keys [source] lacks. *)
Lemma get_prop_spread target source k :
  get_prop (spread target source) k =
    match get_prop (reverse source) k with
    | Some v => Some v
    | None => get_prop target k
    end.
Proof.
  unfold spread. revert target.
  induction source as [|[k' v'] source IH]; intros target; simpl; [done|].
  rewrite IH, reverse_cons, get_prop_app. simpl.
  destruct (get_prop (reverse source) k); [done|].
  rewrite get_prop_set. by destruct (decide (k = k')), (decide (k' = k)); subst.
Qed.

Lemma get_prop_Some_elem_of o k v : get_prop o k = Some v → (k, v) ∈ o.
Proof.
  induction o as [|[k' v'] o IH]; simpl; [done|].
  case_decide; [intros [= ->]; subst; left | right; auto].
Qed.

Lemma get_prop_None o k : get_prop o k = None ↔ k ∉ keys o.
Proof.
  unfold keys. induction o as [|[k' v'] o IH]; simpl.
  - split; [intros _; apply not_elem_of_nil | done].
  - rewrite not_elem_of_cons. case_decide; [|tauto].
    split; [done | intros [? _]; done].
Qed.

Lemma get_prop_is_Some o k : is_Some (get_prop o k) ↔ k ∈ keys o.
Proof.
  rewrite <-not_eq_None_Some, get_prop_None.
  split; [apply dec_stable | auto].
Qed.

Lemma get_prop_reverse o k :
  NoDup (keys o) → get_prop (reverse o) k = get_prop o k.
Proof.
  unfold keys. induction o as [|[k' v'] o IH]; simpl; [done|].
  rewrite NoDup_cons. intros [Hk' Hnd].
  rewrite reverse_cons, get_prop_app, IH by done. simpl.
  case_decide as Hk; [subst|by destruct (get_prop o k)].
  by apply get_prop_None in Hk' as ->.
Qed.

Lemma has_prop_true o k : has_prop o k = true ↔ is_Some (get_prop o k).
Proof. unfold has_prop. by rewrite bool_decide_eq_true. Qed.

Lemma has_prop_false o k : has_prop o k = false ↔ get_prop o k = None.
Proof. unfold has_prop. by rewrite bool_decide_eq_false, eq_None_not_Some. Qed.
End Props.

Lemma prop_Some data k v : get_prop data k = Some v → prop data k = v.
Proof. unfold prop. by intros ->. Qed.

Lemma prop_None data k : get_prop data k = None → prop data k = VUndefined.
Proof. unfold prop. by intros ->. Qed.

Ltac by_compute := apply (bool_decide_unpack _); by vm_compute.

Lemma height_elem_of k v props : (k, v) ∈ props → height v < height (VObj props).
Proof.
  simpl. induction props as [|[k' v'] props IH]; simpl.
  - by intros ?%elem_of_nil.
  - intros [[= -> ->]|Hin%IH]%elem_of_cons; lia.
Qed.

Lemma height_prop props k : height (prop props k) < height (VObj props).
Proof.
  unfold prop. destruct (get_prop props k) as [v|] eqn:Hk; simpl; [|lia].
  by apply (height_elem_of k), get_prop_Some_elem_of.
Qed.

End PropsFacts.

(** ** The combinators *)

Module ZodFacts.
Import JS Zod PropsFacts.

Implicit Types (s : schema) (v r : value) (sh : list (string * schema))
  (data out : list (string * value)) (k : string).

Lemma z_union_Some options v r :
  z_union options v = Some r → ∃ s, s ∈ options ∧ s v = Some r.
Proof.
  induction options as [|s options IH]; simpl; [done|].
  destruct (s v) as [r'|] eqn:Hs.
  - intros [= <-]. exists s. split; [left | done].
  - intros (s' & ? & ?)%IH. exists s'. split; [by right | done].
Qed.

Lemma z_union_None options v :
  z_union options v = None ↔ Forall (λ s, s v = None) options.
Proof.
  induction options as [|s options IH]; simpl.
  - split; [constructor | done].
  - rewrite Forall_cons, <-IH. destruct (s v); [|tauto].
    split; [done | by intros [? _]].
Qed.

Lemma z_union_is_Some options v :
  is_Some (z_union options v) ↔ Exists (λ s, is_Some (s v)) options.
Proof.
  induction options as [|s options IH]; simpl.
  - rewrite Exists_nil. split; [by intros [? ?] | done].
  - rewrite Exists_cons, <-IH. destruct (s v) as [r|].
    + split; [left|]; eauto.
    + split; [by right | by intros [[? ?]|?]].
Qed.

(** An object is accepted exactly when every key of the shape accepts
    the property it is given. *)
Lemma parse_shape_is_Some sh data :
  is_Some (parse_shape sh data) ↔ Forall (λ ks, is_Some (ks.2 (prop data ks.1))) sh.
Proof.
  induction sh as [|[k s] sh IH]; simpl.
  - split; [constructor | eauto].
  - rewrite Forall_cons, <-IH. simpl.
    destruct (s (prop data k)) as [r|]; simpl.
    + destruct (parse_shape sh data); simpl; split; eauto; intros [_ ?]; eauto.
    + split; [by intros [? ?] | by intros [[? ?] _]].
Qed.

Lemma parse_shape_None_key sh data out k :
  parse_shape sh data = Some out → k ∉ keys sh → get_prop out k = None.
Proof.
  unfold keys. revert out. induction sh as [|[k' s] sh IH]; intros out; simpl.
  - by intros [= <-].
  - destruct (s (prop data k')) as [r|]; simpl; [|done].
    destruct (parse_shape sh data) as [out'|]; simpl; [|done].
    intros [= <-] [Hne Hk]%not_elem_of_cons.
    destruct (_ || _); simpl; [rewrite decide_False by done|]; eauto.
Qed.

(** The property [k] of the output is what the schema of [k] made of the
    input's, set when the input has [k] or the parsed value is not
    [undefined]; keys outside the shape are stripped. *)
Lemma parse_shape_get sh data out k :
  NoDup (keys sh) →
  parse_shape sh data = Some out →
  get_prop out k =
    (s ← get_prop sh k; r ← s (prop data k);
     if has_prop data k || negb (is_undefined r) then Some r else None).
Proof.
  unfold keys. revert out. induction sh as [|[k' s] sh IH]; intros out; simpl.
  - by intros _ [= <-].
  - rewrite NoDup_cons. intros [Hk' Hnd].
    destruct (s (prop data k')) as [r|] eqn:Hs; simpl; [|done].
    destruct (parse_shape sh data) as [out'|] eqn:Hsh; simpl; [|done].
    intros [= <-]. case_decide as Hk.
    + subst k'. simpl. rewrite Hs. simpl.
      destruct (_ || _); simpl; [by rewrite decide_True|].
      by eapply parse_shape_None_key.
    + rewrite <-(IH out') by done.
      destruct (_ || _); simpl; [by rewrite decide_False|done].
Qed.

(** Parsing an object only looks at a schema of the shape on the
    property it is given. *)
Lemma parse_shape_ext sh1 sh2 data :
  Forall2 (λ a b, a.1 = b.1 ∧ a.2 (prop data a.1) = b.2 (prop data a.1)) sh1 sh2 →
  parse_shape sh1 data = parse_shape sh2 data.
Proof.
  induction 1 as [|[k1 s1] [k2 s2] sh1 sh2 [Hk Hs] _ IH]; simpl in *; [done|].
  subst k2. by rewrite Hs, IH.
Qed.

(** Parsing an object only looks at the properties its shape names. *)
Lemma parse_shape_agree sh data1 data2 :
  (∀ k, k ∈ keys sh → get_prop data1 k = get_prop data2 k) →
  parse_shape sh data1 = parse_shape sh data2.
Proof.
  unfold keys. induction sh as [|[k s] sh IH]; csimpl; [done|].
  intros Hagree. unfold prop, has_prop.
  rewrite (Hagree k) by left. rewrite IH; [done|].
  intros k' Hk'. apply Hagree. by right.
Qed.

Lemma parse_is_Some (o : ZodObject) v :
  is_Some (parse o v) ↔
  ∃ data, v = VObj data ∧ Forall (λ ks, is_Some (ks.2 (prop data ks.1))) (shape o).
Proof.
  unfold parse. destruct v as [| | | | | | |data|];
    try (split; [by intros [? ?] | by intros (? & ? & _)]).
  rewrite fmap_is_Some, parse_shape_is_Some. split; [eauto|].
  by intros (? & [= <-] & ?).
Qed.

Lemma parse_obj_is_Some (o : ZodObject) data :
  is_Some (parse o (VObj data)) ↔
  Forall (λ ks, is_Some (ks.2 (prop data ks.1))) (shape o).
Proof.
  rewrite parse_is_Some. split; [by intros (? & [= <-] & ?) | eauto].
Qed.

Lemma parse_Some_inv (o : ZodObject) v r :
  parse o v = Some r →
  ∃ data out, v = VObj data ∧ r = VObj out ∧ parse_shape (shape o) data = Some out.
Proof.
  unfold parse. destruct v as [| | | | | | |data|]; try done.
  destruct (parse_shape _ _) as [out|] eqn:Hsh; simpl; [|done].
  intros [= <-]. eauto.
Qed.

(** A record is accepted exactly when the schema accepts the value
    under each key. *)
Lemma z_record_is_Some s v :
  is_Some (z_record s v) ↔
  ∃ data, v = VObj data ∧ ∀ k, k ∈ keys data → is_Some (s (prop data k)).
Proof.
  unfold z_record. destruct v as [| | | | | | |data|];
    try (split; [by intros [? ?] | by intros (? & ? & _)]).
  rewrite fmap_is_Some, mapM_is_Some, Forall_forall.
  split.
  - intros Hall. exists data. split; [done|]. intros k Hk.
    specialize (Hall k Hk). simpl in Hall.
    destruct (s (prop data k)); [eauto | by destruct Hall].
  - intros (? & [= <-] & Hall) k Hk. simpl.
    destruct (Hall k Hk) as [r ->]. simpl. eauto.
Qed.

Lemma z_array_is_Some s v :
  is_Some (z_array s v) ↔ ∃ items, v = VArr items ∧ Forall (λ x, is_Some (s x)) items.
Proof.
  unfold z_array. destruct v as [| | | | | |items| |];
    try (split; [by intros [? ?] | by intros (? & ? & _)]).
  rewrite fmap_is_Some, mapM_is_Some. split; [eauto|]. by intros (? & [= <-] & ?).
Qed.

End ZodFacts.

(** ** The field schemas *)

Module SchemaFacts.
Import JS Zod Types PropsFacts ZodFacts.

Section WithRuntime.
Context `{DateRuntime}.

Implicit Types (v r : value) (data out : list (string * value)) (k : string).

(** The shapes after [extend]. *)
Lemma shape_numberFieldSchemaF referenceable :
  shape (numberFieldSchemaF referenceable) =
    (shape baseFieldSchema ++ [
      ("type", z_literal (VStr "number"));
      ("default", z_optional z_number);
      ("references", z_optional (z_function_returns (z_lazy (λ _, referenceable))));
      ("primaryKey", z_optional z_boolean) ])%list.
Proof. reflexivity. Qed.

Lemma shape_textFieldSchemaF referenceable :
  shape (textFieldSchemaF referenceable) =
    (shape baseFieldSchema ++ [
      ("type", z_literal (VStr "text"));
      ("multiline", z_optional z_boolean);
      ("default", z_optional z_string);
      ("references", z_optional (z_function_returns (z_lazy (λ _, referenceable))));
      ("primaryKey", z_optional z_boolean) ])%list.
Proof. reflexivity. Qed.

Lemma shape_booleanFieldSchema :
  shape booleanFieldSchema =
    (shape baseFieldSchema ++ [
      ("type", z_literal (VStr "boolean"));
      ("default", z_optional z_boolean) ])%list.
Proof. reflexivity. Qed.

Lemma shape_dateFieldSchema :
  shape dateFieldSchema =
    (shape baseFieldSchema ++ [
      ("type", z_literal (VStr "date"));
      ("default", z_optional (z_union [
          z_literal (VStr "now");
          z_transform z_coerce_date date_toISOString ])) ])%list.
Proof. reflexivity. Qed.

Lemma shape_jsonFieldSchema :
  shape jsonFieldSchema =
    (shape baseFieldSchema ++ [
      ("type", z_literal (VStr "json"));
      ("default", z_optional z_unknown) ])%list.
Proof. reflexivity. Qed.

(** The wrapper that [references] is parsed into consults the lazy
    schema on the result of the function only. *)
Lemma references_ext (r1 r2 : schema) v :
  (∀ x, height x < height v → r1 x = r2 x) →
  z_optional (z_function_returns (z_lazy (λ _, r1))) v =
  z_optional (z_function_returns (z_lazy (λ _, r2))) v.
Proof.
  intros Hr. destruct v as [| | | | | | | |[x|]]; simpl; try done.
  unfold z_lazy. rewrite Hr; [done | simpl; lia].
Qed.

Ltac same_entries := repeat constructor; simpl; done.

Lemma parse_numberFieldSchemaF_ext (r1 r2 : schema) v :
  (∀ x, S (height x) < height v → r1 x = r2 x) →
  parse (numberFieldSchemaF r1) v = parse (numberFieldSchemaF r2) v.
Proof.
  intros Hr. destruct v as [| | | | | | |data|]; try done.
  unfold parse. f_equal. apply parse_shape_ext.
  rewrite !shape_numberFieldSchemaF. apply Forall2_app; [same_entries|].
  repeat constructor; simpl; try done.
  apply references_ext. intros x Hx. apply Hr.
  pose proof (height_prop data "references"). lia.
Qed.

Lemma parse_textFieldSchemaF_ext (r1 r2 : schema) v :
  (∀ x, S (height x) < height v → r1 x = r2 x) →
  parse (textFieldSchemaF r1) v = parse (textFieldSchemaF r2) v.
Proof.
  intros Hr. destruct v as [| | | | | | |data|]; try done.
  unfold parse. f_equal. apply parse_shape_ext.
  rewrite !shape_textFieldSchemaF. apply Forall2_app; [same_entries|].
  repeat constructor; simpl; try done.
  apply references_ext. intros x Hx. apply Hr.
  pose proof (height_prop data "references"). lia.
Qed.

Lemma referenceableFieldSchemaF_ext (r1 r2 : schema) v :
  (∀ x, S (height x) < height v → r1 x = r2 x) →
  referenceableFieldSchemaF r1 v = referenceableFieldSchemaF r2 v.
Proof.
  intros Hr. unfold referenceableFieldSchemaF. simpl.
  by rewrite (parse_textFieldSchemaF_ext r1 r2), (parse_numberFieldSchemaF_ext r1 r2).
Qed.

(** Unfolding the lazy getter more often than the value is high changes
    nothing. *)
Lemma referenceableFieldSchema_upto_enough n m v :
  height v < n → height v < m →
  referenceableFieldSchema_upto n v = referenceableFieldSchema_upto m v.
Proof.
  revert m v. induction n as [|n IH]; intros m v Hn Hm; [lia|].
  destruct m as [|m]; [lia|]. simpl.
  apply referenceableFieldSchemaF_ext. intros x Hx. apply IH; lia.
Qed.

(** The circular definition of the source:
    [referenceableFieldSchema = z.union([textFieldSchema, numberFieldSchema])]. *)
Lemma referenceableFieldSchema_unfold v :
  referenceableFieldSchema v = z_union [parse textFieldSchema; parse numberFieldSchema] v.
Proof.
  unfold referenceableFieldSchema at 1. simpl referenceableFieldSchema_upto.
  apply referenceableFieldSchemaF_ext. intros x Hx.
  apply referenceableFieldSchema_upto_enough; lia.
Qed.

Lemma z_literal_is_Some (lit : string) v :
  is_Some (z_literal (VStr lit) v) ↔ v = VStr lit.
Proof.
  unfold z_literal. destruct v as [| | | |x| | | |]; simpl;
    try (split; [by intros [? ?] | done]).
  case_bool_decide as Hx; [subst; split; eauto|].
  split; [by intros [? ?] | by intros [= ->]].
Qed.

Lemma z_literal_bool_is_Some (lit : bool) v :
  is_Some (z_literal (VBool lit) v) ↔ v = VBool lit.
Proof.
  unfold z_literal. destruct v as [| |x| | | | | |]; simpl;
    try (split; [by intros [? ?] | done]).
  case_bool_decide as Hx; [subst; split; eauto|].
  split; [by intros [? ?] | by intros [= ->]].
Qed.

(** An object schema whose shape gives [type] a literal only accepts
    objects with that tag. *)
Lemma parse_type_tag (o : ZodObject) (tag : string) v :
  ("type", z_literal (VStr tag)) ∈ shape o →
  is_Some (parse o v) →
  ∃ data, v = VObj data ∧ prop data "type" = VStr tag.
Proof.
  intros Hin (data & -> & Hall)%parse_is_Some. exists data. split; [done|].
  rewrite Forall_forall in Hall. by apply z_literal_is_Some, (Hall _ Hin).
Qed.

Ltac type_entry :=
  first [ rewrite shape_booleanFieldSchema | rewrite shape_numberFieldSchemaF
        | rewrite shape_textFieldSchemaF | rewrite shape_dateFieldSchema
        | rewrite shape_jsonFieldSchema ];
  apply elem_of_app; right; left.

Lemma fieldSchema_inv v :
  is_Some (fieldSchema v) →
  ∃ data tag, v = VObj data ∧ prop data "type" = VStr tag ∧ tag ∈ FieldType.
Proof.
  intros [r (s & Hs & Hr)%z_union_Some].
  assert (is_Some (s v)) as Hsv by eauto. clear Hr.
  assert (∃ o tag, s = parse o ∧ ("type", z_literal (VStr tag)) ∈ shape o ∧ tag ∈ FieldType)
    as (o & tag & -> & Hin & Htag).
  { unfold FieldType, numberFieldSchema, textFieldSchema in *.
    repeat (apply elem_of_cons in Hs as [->|Hs];
      [eexists _, _; split; [done|]; split; [type_entry | set_solver]|]).
    by apply elem_of_nil in Hs. }
  destruct (parse_type_tag o tag v Hin Hsv) as (data & -> & Ht). eauto.
Qed.

(** The equation has one solution. *)
Lemma referenceableFieldSchema_unique (r : schema) :
  (∀ v, r v = z_union [parse (textFieldSchemaF r); parse (numberFieldSchemaF r)] v) →
  ∀ v, r v = referenceableFieldSchema v.
Proof.
  intros Hr v. remember (height v) as h eqn:Hh. revert v Hh.
  induction h as [h IH] using lt_wf_ind. intros v ->.
  rewrite Hr, referenceableFieldSchema_unfold.
  apply (referenceableFieldSchemaF_ext r referenceableFieldSchema).
  intros x Hx. apply (IH (height x)); [lia | done].
Qed.

(** C3.  The field schema accepts a value only if it is an object whose
    [type] is one of the five tags of [FieldType]; any other value, in
    particular a field definition with another [type], is rejected with
    a [ZodError]; and each of the five tags is accepted on a field that
    has nothing but the tag. *)
Theorem fieldSchema_type_tag v :
  (is_Some (fieldSchema v) →
     ∃ data tag, v = VObj data ∧ prop data "type" = VStr tag ∧ tag ∈ FieldType)
  ∧ ((∀ data tag, v = VObj data → prop data "type" = VStr tag → tag ∉ FieldType) →
     fieldSchema v = None)
  ∧ (∀ tag, tag ∈ FieldType → is_Some (fieldSchema (VObj [("type", VStr tag)]))).
Proof.
  split; [apply fieldSchema_inv|]. split.
  - intros Hno. apply eq_None_not_Some.
    intros (data & tag & -> & Ht & Htag)%fieldSchema_inv. by eapply Hno.
  - intros tag Htag. unfold FieldType in Htag.
    repeat (apply elem_of_cons in Htag as [->|Htag]; [eexists; vm_compute; reflexivity|]).
    by apply elem_of_nil in Htag.
Qed.

Lemma NoDup_keys_numberFieldSchema : NoDup (keys (shape numberFieldSchema)).
Proof. by_compute. Qed.

Lemma NoDup_keys_textFieldSchema : NoDup (keys (shape textFieldSchema)).
Proof. by_compute. Qed.

(** What the parsed [references] of a number or text field is. *)
Lemma parse_references (o : ZodObject) data out :
  NoDup (keys (shape o)) →
  get_prop (shape o) "references" =
    Some (z_optional (z_function_returns (z_lazy (λ _, referenceableFieldSchema)))) →
  parse o (VObj data) = Some (VObj out) →
  (prop data "references" = VUndefined
   ∧ get_prop out "references" = (if has_prop data "references" then Some VUndefined else None))
  ∨ (∃ result, prop data "references" = VFun result
     ∧ get_prop out "references" = Some (VFun (result ≫= referenceableFieldSchema))).
Proof.
  intros Hnd Href (? & ? & [= <-] & [= <-] & Hsh)%parse_Some_inv.
  rewrite (parse_shape_get _ _ _ "references" Hnd Hsh), Href. simpl.
  pose proof (proj1 (parse_shape_is_Some _ _) (mk_is_Some _ _ Hsh)) as Hall.
  rewrite Forall_forall in Hall.
  specialize (Hall _ (get_prop_Some_elem_of _ _ _ Href)). simpl in Hall.
  destruct (prop data "references") as [| | | | | | | |result]; simpl in *;
    try (by destruct Hall).
  - left. split; [done|]. by rewrite orb_false_r.
  - right. exists result. split; [done|]. by rewrite orb_true_r.
Qed.

(** C4.  The referenceable fields are the text fields and the number
    fields.  The schemas of boolean, date and json fields have no
    [references] key: their output never has the property, and an input
    that has one is parsed as if it had none.  The
    [references] of a number or text field, when given, must be a
    function, and the parsed field holds a function that returns what
    the [referenceableFieldSchema] makes of the result: it returns only
    if the result is a text or a number field. *)
Theorem references_only_on_text_and_number :
  (∀ v, referenceableFieldSchema v = z_union [parse textFieldSchema; parse numberFieldSchema] v)
  ∧ (∀ v, is_Some (referenceableFieldSchema v) ↔
          is_Some (parse textFieldSchema v) ∨ is_Some (parse numberFieldSchema v))
  ∧ (∀ o, o ∈ [booleanFieldSchema; dateFieldSchema; jsonFieldSchema] →
       ("references" ∉ keys (shape o))
       ∧ (∀ v out, parse o v = Some (VObj out) → get_prop out "references" = None)
       ∧ (∀ data x, parse o (VObj (set_prop "references" x data)) = parse o (VObj data)))
  ∧ (∀ o, o ∈ [numberFieldSchema; textFieldSchema] →
       "references" ∈ keys (shape o)
       ∧ ∀ data out, parse o (VObj data) = Some (VObj out) →
           (prop data "references" = VUndefined
            ∧ get_prop out "references" =
                (if has_prop data "references" then Some VUndefined else None))
           ∨ (∃ result, prop data "references" = VFun result
              ∧ get_prop out "references" = Some (VFun (result ≫= referenceableFieldSchema))
              ∧ ∀ r', result ≫= referenceableFieldSchema = Some r' →
                   ∃ r, result = Some r
                        ∧ (is_Some (parse textFieldSchema r)
                           ∨ is_Some (parse numberFieldSchema r)))).
Proof.
  assert (∀ v, is_Some (referenceableFieldSchema v) ↔
            is_Some (parse textFieldSchema v) ∨ is_Some (parse numberFieldSchema v)) as Hiff.
  { intros v. rewrite referenceableFieldSchema_unfold, z_union_is_Some.
    rewrite !Exists_cons, Exists_nil. tauto. }
  split; [apply referenceableFieldSchema_unfold|]. split; [done|]. split.
  - intros o Ho.
    assert ("references" ∉ keys (shape o)) as Hk.
    { repeat (apply elem_of_cons in Ho as [->|Ho];
        [by_compute|]).
      by apply elem_of_nil in Ho. }
    split; [done|]. split.
    + intros v out (? & ? & -> & [= <-] & Hsh)%parse_Some_inv.
      by eapply parse_shape_None_key.
    + intros data x. unfold parse. f_equal. apply parse_shape_agree.
      intros k Hin. apply get_prop_set_ne. by intros <-.
  - intros o Ho.
    assert (NoDup (keys (shape o)) ∧
            get_prop (shape o) "references" =
              Some (z_optional (z_function_returns (z_lazy (λ _, referenceableFieldSchema)))))
      as [Hnd Href].
    { repeat (apply elem_of_cons in Ho as [->|Ho];
        [split; [by_compute | reflexivity]|]).
      by apply elem_of_nil in Ho. }
    split; [by apply get_prop_is_Some; rewrite Href|].
    intros data out Hp.
    destruct (parse_references o data out Hnd Href Hp) as [?|(result & ? & ?)]; [by left|].
    right. exists result. split_and!; [done..|].
    intros r' Hr'. destruct result as [r|]; [|done]. exists r. split; [done|].
    apply Hiff. simpl in Hr'. eauto.
Qed.

(** *** Collections *)

Lemma shape_collectionSchema (b : bool) :
  shape (extend baseCollectionSchema [("writable", z_literal (VBool b))]) =
    [ ("fields", fieldsSchema);
      ("indexes", z_optional (z_record (parse indexSchema)));
      ("foreignKeys", z_optional (z_array (parse foreignKeysSchema)));
      ("table", z_any);
      ("_setMeta", z_optional z_function);
      ("writable", z_literal (VBool b)) ].
Proof. reflexivity. Qed.

(** What the rest of a collection must satisfy, whatever [writable] is. *)
Definition collection_body_ok data : Prop :=
  is_Some (fieldsSchema (prop data "fields"))
  ∧ is_Some (z_optional (z_record (parse indexSchema)) (prop data "indexes"))
  ∧ is_Some (z_optional (z_array (parse foreignKeysSchema)) (prop data "foreignKeys"))
  ∧ is_Some (z_optional z_function (prop data "_setMeta")).

Lemma parse_collection_is_Some (b : bool) v :
  is_Some (parse (extend baseCollectionSchema [("writable", z_literal (VBool b))]) v) ↔
  ∃ data, v = VObj data ∧ collection_body_ok data ∧ prop data "writable" = VBool b.
Proof.
  rewrite parse_is_Some, shape_collectionSchema. unfold collection_body_ok.
  f_equiv; intros data. rewrite !Forall_cons, Forall_nil. simpl.
  rewrite z_literal_bool_is_Some. unfold z_any.
  split; [intros (-> & ? & ? & ? & _ & ? & ? & _) | intros (-> & (? & ? & ? & ?) & ?)];
    split_and!; eauto.
Qed.

Lemma collectionSchema_is_Some v :
  is_Some (collectionSchema v) ↔
  ∃ data, v = VObj data ∧ collection_body_ok data ∧ ∃ b, prop data "writable" = VBool b.
Proof.
  unfold collectionSchema, readableCollectionSchema, writableCollectionSchema.
  rewrite z_union_is_Some, !Exists_cons, Exists_nil, !parse_collection_is_Some.
  split.
  - intros [(data & ? & ? & ?)|[(data & ? & ? & ?)|[]]]; exists data; eauto.
  - intros (data & ? & ? & [[] ?]); [right; left | left]; exists data; eauto.
Qed.

Lemma collectionSchema_inv v :
  is_Some (collectionSchema v) →
  ∃ data fields b, v = VObj data ∧ get_prop data "fields" = Some (VObj fields)
                   ∧ get_prop data "writable" = Some (VBool b).
Proof.
  intros (data & -> & (Hf & _) & b & Hw)%collectionSchema_is_Some.
  apply z_record_is_Some in Hf as (fields & Hf & _).
  exists data, fields, b. unfold prop in *.
  destruct (get_prop data "fields"), (get_prop data "writable"); simplify_eq/=; done.
Qed.

Lemma collectionSchema_missing data :
  get_prop data "fields" = None ∨ get_prop data "writable" = None →
  collectionSchema (VObj data) = None.
Proof.
  intros Hnone. apply eq_None_not_Some.
  intros (? & ? & ? & [= <-] & Hf & Hw)%collectionSchema_inv.
  destruct Hnone; congruence.
Qed.

(** C7.  The collection schema accepts a value only if it is an object
    with a [fields] record and a [writable] that is [true] or [false];
    without [fields] or without [writable] it is rejected.  [indexes]
    and [foreignKeys] are optional: each is checked only when given, so
    a collection without them is accepted whenever its [fields] are,
    its [writable] is a boolean and its [_setMeta], if any, is a
    function. *)
Theorem collectionSchema_required v :
  (is_Some (collectionSchema v) →
     ∃ data fields b, v = VObj data ∧ get_prop data "fields" = Some (VObj fields)
                      ∧ get_prop data "writable" = Some (VBool b))
  ∧ (∀ data, v = VObj data →
       get_prop data "fields" = None ∨ get_prop data "writable" = None →
       collectionSchema v = None)
  ∧ (∀ data, v = VObj data →
       (is_Some (collectionSchema v) ↔
        is_Some (fieldsSchema (prop data "fields"))
        ∧ (get_prop data "indexes" = None
           ∨ is_Some (z_optional (z_record (parse indexSchema)) (prop data "indexes")))
        ∧ (get_prop data "foreignKeys" = None
           ∨ is_Some (z_optional (z_array (parse foreignKeysSchema))
                        (prop data "foreignKeys")))
        ∧ is_Some (z_optional z_function (prop data "_setMeta"))
        ∧ ∃ b, prop data "writable" = VBool b)).
Proof.
  split; [apply collectionSchema_inv|split].
  - intros data ->. apply collectionSchema_missing.
  - intros data ->. rewrite collectionSchema_is_Some. unfold collection_body_ok.
    assert (∀ s k, get_prop data k = None ∨ is_Some (z_optional s (prop data k))
                   ↔ is_Some (z_optional s (prop data k))) as Hopt.
    { intros s k. split; [|by right]. intros [Hk|?]; [|done].
      rewrite (prop_None _ _ Hk). simpl. eauto. }
    rewrite !Hopt. split.
    + intros (? & [= <-] & (? & ? & ? & ?) & ?). eauto 10.
    + intros (? & ? & ? & ? & ?). exists data. eauto 10.
Qed.

(** *** Date fields *)

Lemma date_default_parse (d : value) :
  z_optional (z_union [z_literal (VStr "now");
                       z_transform z_coerce_date date_toISOString]) d =
    if is_undefined d then Some VUndefined
    else if strict_equals d (VStr "now") then Some d
    else t ← newDate d; Some (VStr (toISOString t)).
Proof.
  unfold z_transform, z_coerce_date, z_literal.
  destruct d as [| | | |x| | | |]; simpl; try done;
    try (by destruct (newDate _)).
  case_bool_decide; [done|]. by destruct (newDate _).
Qed.

Lemma strict_equals_str v (x : string) : strict_equals v (VStr x) = true ↔ v = VStr x.
Proof.
  destruct v; simpl; try (split; done).
  rewrite bool_decide_eq_true. split; congruence.
Qed.

Lemma is_undefined_true v : is_undefined v = true ↔ v = VUndefined.
Proof. destruct v; simpl; split; done. Qed.

Lemma parse_dateFieldSchema_is_Some data :
  is_Some (parse dateFieldSchema (VObj data)) ↔
  is_Some (parse baseFieldSchema (VObj data))
  ∧ prop data "type" = VStr "date"
  ∧ (prop data "default" = VUndefined ∨ prop data "default" = VStr "now"
     ∨ is_Some (newDate (prop data "default"))).
Proof.
  rewrite !parse_obj_is_Some, shape_dateFieldSchema, Forall_app.
  rewrite !Forall_cons, Forall_nil. simpl.
  rewrite z_literal_is_Some, date_default_parse.
  assert (is_Some (if is_undefined (prop data "default") then Some VUndefined
                   else if strict_equals (prop data "default") (VStr "now")
                        then Some (prop data "default")
                        else t ← newDate (prop data "default"); Some (VStr (toISOString t)))
          ↔ prop data "default" = VUndefined ∨ prop data "default" = VStr "now"
            ∨ is_Some (newDate (prop data "default"))) as ->; [|tauto].
  destruct (is_undefined _) eqn:Hu.
  { apply is_undefined_true in Hu. split; eauto. }
  destruct (strict_equals _ _) eqn:Hn.
  { apply strict_equals_str in Hn. split; eauto. }
  assert (prop data "default" ≠ VUndefined) by (intros Heq; by rewrite Heq in Hu).
  assert (prop data "default" ≠ VStr "now")
    by (intros Heq%strict_equals_str; congruence).
  destruct (newDate _) as [t|]; simpl.
  - split; [intros _; right; right; eauto | eauto].
  - split; [by intros [? ?] | by intros [?|[?|[? ?]]]].
Qed.

Lemma NoDup_keys_dateFieldSchema : NoDup (keys (shape dateFieldSchema)).
Proof. by_compute. Qed.

Lemma parse_dateFieldSchema_default data out :
  parse dateFieldSchema (VObj data) = Some (VObj out) →
  get_prop out "default" =
    (r ← (if is_undefined (prop data "default") then Some VUndefined
          else if strict_equals (prop data "default") (VStr "now")
               then Some (prop data "default")
               else t ← newDate (prop data "default"); Some (VStr (toISOString t)));
     if has_prop data "default" || negb (is_undefined r) then Some r else None).
Proof.
  intros (? & ? & [= <-] & [= <-] & Hsh)%parse_Some_inv.
  rewrite (parse_shape_get _ _ _ "default" NoDup_keys_dateFieldSchema Hsh).
  change (get_prop (shape dateFieldSchema) "default")
    with (Some (z_optional (z_union [z_literal (VStr "now");
                                     z_transform z_coerce_date date_toISOString]))).
  simpl. by rewrite date_default_parse.
Qed.

(** A value tagged [date] is a field exactly when it is a date field. *)
Lemma fieldSchema_date data :
  prop data "type" = VStr "date" →
  fieldSchema (VObj data) = parse dateFieldSchema (VObj data).
Proof.
  intros Ht. unfold fieldSchema. cbn [z_union].
  assert (∀ o tag, ("type", z_literal (VStr tag)) ∈ shape o → tag ≠ "date" →
            parse o (VObj data) = None) as Hno.
  { intros o tag Hin Hne. apply eq_None_not_Some. intros Hs.
    destruct (parse_type_tag o tag _ Hin Hs) as (? & [= <-] & ?). congruence. }
  unfold numberFieldSchema, textFieldSchema.
  rewrite (Hno booleanFieldSchema "boolean"), (Hno (numberFieldSchemaF _) "number"),
    (Hno (textFieldSchemaF _) "text"); try done; try type_entry.
  by destruct (parse dateFieldSchema _) eqn:Hd; [|rewrite (Hno jsonFieldSchema "json");
    [done | type_entry | done]].
Qed.

(** C9.  In a date field, with [d] the [default] given: the field is
    accepted exactly when the rest of it is and [d] is absent, ['now'] or
    coerced to a valid date by [new Date]; in the parsed field ['now']
    stays ['now'], and any other [d] has become the [toISOString()] of
    the coerced date; a [d] that is neither ['now'] nor coercible is
    rejected. *)
Theorem dateFieldSchema_default data :
  let d := prop data "default" in
  (is_Some (parse dateFieldSchema (VObj data)) ↔
     is_Some (parse baseFieldSchema (VObj data))
     ∧ prop data "type" = VStr "date"
     ∧ (d = VUndefined ∨ d = VStr "now" ∨ is_Some (newDate d)))
  ∧ (∀ out, parse dateFieldSchema (VObj data) = Some (VObj out) →
       (d = VStr "now" → get_prop out "default" = Some (VStr "now"))
       ∧ (d ≠ VStr "now" → d ≠ VUndefined →
          ∃ t, newDate d = Some t ∧ get_prop out "default" = Some (VStr (toISOString t))))
  ∧ (d ≠ VStr "now" → d ≠ VUndefined → newDate d = None →
     parse dateFieldSchema (VObj data) = None)
  ∧ (prop data "type" = VStr "date" →
     fieldSchema (VObj data) = parse dateFieldSchema (VObj data)).
Proof.
  intros d. split; [apply parse_dateFieldSchema_is_Some|].
  split; [|split; [|apply fieldSchema_date]].
  - intros out Hp. pose proof (parse_dateFieldSchema_default _ _ Hp) as Hd.
    pose proof (proj1 (parse_dateFieldSchema_is_Some data) (mk_is_Some _ _ Hp))
      as (_ & _ & Hok).
    fold d in Hd, Hok. split.
    + intros Hnow. rewrite Hnow in Hd. simpl in Hd. by rewrite orb_true_r in Hd.
    + intros Hnow Hundef.
      destruct Hok as [?|[?|[t Ht]]]; [done..|]. exists t. split; [done|].
      rewrite Hd. destruct (is_undefined d) eqn:Hu.
      { by apply is_undefined_true in Hu. }
      destruct (strict_equals d _) eqn:Hn.
      { by apply strict_equals_str in Hn. }
      rewrite Ht. simpl. by rewrite orb_true_r.
  - intros Hnow Hundef Hnone. apply eq_None_not_Some.
    intros (_ & _ & [?|[?|[t Ht]]])%parse_dateFieldSchema_is_Some; try done.
    fold d in Ht. congruence.
Qed.

End WithRuntime.
End SchemaFacts.

(** ** [config.ts]: the db config schema and the field constructors *)

Module ConfigFacts.
Import JS Zod Types PropsFacts ZodFacts SchemaFacts.

Section WithRuntime.
Context `{DateRuntime}.

Implicit Types (v : value) (cfg collections data fields : list (string * value)).

(** The db config is accepted exactly when [studio] is absent or a
    boolean and [collections] is absent or a record whose every name
    holds a collection. *)
Lemma dbConfigSchema_is_Some cfg :
  is_Some (parse Config.dbConfigSchema (VObj cfg)) ↔
  is_Some (z_optional z_boolean (prop cfg "studio"))
  ∧ (prop cfg "collections" = VUndefined
     ∨ ∃ collections, prop cfg "collections" = VObj collections
         ∧ ∀ name, name ∈ keys collections →
             is_Some (collectionSchema (prop collections name))).
Proof.
  rewrite parse_obj_is_Some. unfold Config.dbConfigSchema. simpl.
  rewrite !Forall_cons, Forall_nil. simpl.
  assert (is_Some (z_optional collectionsSchema (prop cfg "collections")) ↔
          prop cfg "collections" = VUndefined
          ∨ ∃ collections, prop cfg "collections" = VObj collections
              ∧ ∀ name, name ∈ keys collections →
                  is_Some (collectionSchema (prop collections name))) as ->; [|tauto].
  destruct (prop cfg "collections") as [| | | | | | |collections|] eqn:Hc; simpl;
    try (split; [by intros [? ?] | by intros [?|(? & ? & _)]]).
  - split; eauto.
  - change (is_Some (z_record collectionSchema (VObj collections)) ↔
            VObj collections = VUndefined
            ∨ ∃ collections0, VObj collections = VObj collections0
                ∧ ∀ name, name ∈ keys collections0 →
                    is_Some (collectionSchema (prop collections0 name))).
    rewrite z_record_is_Some. split; [eauto | by intros [?|?]].
Qed.

(** A collection that is not accepted makes the config fail. *)
Lemma dbConfigSchema_bad_collection cfg collections name c :
  get_prop cfg "collections" = Some (VObj collections) →
  get_prop collections name = Some c →
  collectionSchema c = None →
  parse Config.dbConfigSchema (VObj cfg) = None.
Proof.
  intros Hc Hname Hbad. apply eq_None_not_Some.
  intros (_ & [Hu|(cs & Hcs & Hall)])%dbConfigSchema_is_Some;
    rewrite (prop_Some _ _ _ Hc) in *; simplify_eq.
  specialize (Hall name). rewrite (prop_Some _ _ _ Hname), Hbad in Hall.
  destruct Hall as [? ?]; [|done].
  apply get_prop_is_Some. by rewrite Hname.
Qed.

(** A field that is not accepted makes its collection fail. *)
Lemma collectionSchema_bad_field data fields k f :
  get_prop data "fields" = Some (VObj fields) →
  get_prop fields k = Some f →
  fieldSchema f = None →
  collectionSchema (VObj data) = None.
Proof.
  intros Hf Hk Hbad. apply eq_None_not_Some.
  intros (? & [= <-] & (Hfs & _) & _)%collectionSchema_is_Some.
  rewrite (prop_Some _ _ _ Hf) in Hfs. unfold fieldsSchema in Hfs.
  apply z_record_is_Some in Hfs as (? & [= <-] & Hall).
  specialize (Hall k). rewrite (prop_Some _ _ _ Hk), Hbad in Hall.
  destruct Hall as [? ?]; [|done].
  apply get_prop_is_Some. by rewrite Hk.
Qed.

End WithRuntime.

(** An object literal keeps one property per key, the last one written. *)
Lemma object_literal_get {V} (entries : list (string * V)) k :
  get_prop (object_literal entries) k = get_prop (reverse entries) k.
Proof.
  unfold object_literal. rewrite get_prop_spread. by destruct (get_prop _ _).
Qed.

Lemma keys_set_prop {V} k (v : V) o :
  keys (set_prop k v o) = if decide (k ∈ keys o) then keys o else (keys o ++ [k])%list.
Proof.
  unfold keys. induction o as [|[k' v'] o IH]; csimpl; [done|].
  destruct (decide (k = k')) as [->|Hne]; csimpl.
  - rewrite decide_True; [done | left].
  - rewrite IH. destruct (decide (k ∈ o.*1)).
    + rewrite decide_True; [done | by right].
    + rewrite decide_False; [done|]. by intros [?|?]%elem_of_cons.
Qed.

Lemma NoDup_keys_set_prop {V} k (v : V) o : NoDup (keys o) → NoDup (keys (set_prop k v o)).
Proof.
  intros Hnd. rewrite keys_set_prop. case_decide as Hk; [done|].
  apply NoDup_app. split_and!; [done | | apply NoDup_singleton].
  intros x Hx ->%list_elem_of_singleton. done.
Qed.

Lemma NoDup_keys_spread {V} (target source : list (string * V)) :
  NoDup (keys target) → NoDup (keys (spread target source)).
Proof.
  unfold spread. revert target.
  induction source as [|[k v] source IH]; intros target Hnd; simpl; [done|].
  by apply IH, NoDup_keys_set_prop.
Qed.

Lemma NoDup_keys_object_literal {V} (entries : list (string * V)) :
  NoDup (keys (object_literal entries)).
Proof. apply NoDup_keys_spread, NoDup_nil_2. Qed.

(** C6, as stated, fails: an object literal that names the collection
    [posts] twice is a record with one [posts], the second, and the
    config is accepted. *)
Lemma duplicate_collection_name_accepted :
  @parse (@Config.dbConfigSchema Sample.runtime)
    (VObj (object_literal [
       ("collections", VObj (object_literal [
          ("posts", VObj [("fields", VObj []); ("writable", VBool false)]);
          ("posts", VObj [("fields", VObj []); ("writable", VBool true)]) ])) ]))
  = Some (VObj [
       ("collections", VObj [
          ("posts", VObj [("fields", VObj []); ("writable", VBool true)]) ]) ]).
Proof. reflexivity. Qed.

(** C6, amended.  Parsing a db config fails when a collection holds a
    field that the field schema rejects, and when a collection lacks
    [fields] or [writable].  Collections are validated name by name:
    the config is accepted exactly when [studio] is absent or a boolean
    and every name of [collections] holds a collection.  A name cannot
    occur twice in a record; an object literal that repeats a name has
    distinct keys and keeps the last entry of each. *)
Theorem dbConfigSchema_validation `{DateRuntime} (cfg : list (string * value)) :
  (∀ collections name data fields k f,
     get_prop cfg "collections" = Some (VObj collections) →
     get_prop collections name = Some (VObj data) →
     get_prop data "fields" = Some (VObj fields) →
     get_prop fields k = Some f →
     fieldSchema f = None →
     parse Config.dbConfigSchema (VObj cfg) = None)
  ∧ (∀ collections name data,
       get_prop cfg "collections" = Some (VObj collections) →
       get_prop collections name = Some (VObj data) →
       get_prop data "fields" = None ∨ get_prop data "writable" = None →
       parse Config.dbConfigSchema (VObj cfg) = None)
  ∧ (is_Some (parse Config.dbConfigSchema (VObj cfg)) ↔
     is_Some (z_optional z_boolean (prop cfg "studio"))
     ∧ (prop cfg "collections" = VUndefined
        ∨ ∃ collections, prop cfg "collections" = VObj collections
            ∧ ∀ name, name ∈ keys collections →
                is_Some (collectionSchema (prop collections name))))
  ∧ (∀ entries : list (string * value),
       NoDup (keys (object_literal entries))
       ∧ ∀ k, get_prop (object_literal entries) k = get_prop (reverse entries) k).
Proof.
  split_and!.
  - intros collections name data fields k f Hc Hname Hf Hk Hbad.
    eapply dbConfigSchema_bad_collection; [done..|].
    by eapply collectionSchema_bad_field.
  - intros collections name data Hc Hname Hmissing.
    eapply dbConfigSchema_bad_collection; [done..|].
    by apply collectionSchema_missing.
  - apply dbConfigSchema_is_Some.
  - intros entries. split; [apply NoDup_keys_object_literal|].
    intros k. apply object_literal_get.
Qed.

(** *** The field constructors *)

(** [{ ...literal, ...baseDefaults, ...opts }] *)
Lemma field_constructor_get (literal opts : list (string * value)) k :
  get_prop (spread (spread (object_literal literal) Config.baseDefaults) opts) k =
    match get_prop (reverse opts) k with
    | Some v => Some v
    | None =>
        match get_prop Config.baseDefaults k with
        | Some v => Some v
        | None => get_prop (reverse literal) k
        end
    end.
Proof.
  rewrite !get_prop_spread, object_literal_get.
  by rewrite (get_prop_reverse Config.baseDefaults) by by_compute.
Qed.

(** What a constructor promises for the tag [tag], where [bare] is what
    it returns without options. *)
Definition constructs (constructor : option (list (string * value)) → list (string * value))
    (tag : string) (bare : list (string * value)) (opts : list (string * value)) : Prop :=
  constructor None = bare
  ∧ constructor (Some []) = bare
  ∧ get_prop (constructor (Some opts)) "type" = Some (VStr tag)
  ∧ (∀ k v, get_prop opts k = Some v → get_prop (constructor (Some opts)) k = Some v)
  ∧ (∀ k, get_prop opts k = None → get_prop (constructor (Some opts)) k = get_prop bare k).

(** C8, as stated, fails on options that carry a [type] of their own,
    which the spread puts over the constructor's tag. *)
Lemma field_number_type_overridden :
  get_prop (Config.field.number (Some [("type", VStr "text")])) "type" = Some (VStr "text").
Proof. reflexivity. Qed.

(** C8, amended.  For options without a [type] key (the constructors
    take [Omit<..., 'type'>]), each constructor returns a field tagged
    with its own name, in which every option given has its given value
    and every other key is as in the field built without options:
    [optional] and [unique] false, [label] and [default] undefined, and
    [multiline] false for text. *)
Theorem field_constructors (opts : list (string * value)) :
  NoDup (keys opts) →
  get_prop opts "type" = None →
  constructs Config.field.number "number"
    [("type", VStr "number"); ("optional", VBool false); ("unique", VBool false);
     ("label", VUndefined); ("default", VUndefined)] opts
  ∧ constructs Config.field.boolean "boolean"
    [("type", VStr "boolean"); ("optional", VBool false); ("unique", VBool false);
     ("label", VUndefined); ("default", VUndefined)] opts
  ∧ constructs Config.field.text "text"
    [("type", VStr "text"); ("multiline", VBool false); ("optional", VBool false);
     ("unique", VBool false); ("label", VUndefined); ("default", VUndefined)] opts
  ∧ constructs Config.field.date "date"
    [("type", VStr "date"); ("optional", VBool false); ("unique", VBool false);
     ("label", VUndefined); ("default", VUndefined)] opts
  ∧ constructs Config.field.json "json"
    [("type", VStr "json"); ("optional", VBool false); ("unique", VBool false);
     ("label", VUndefined); ("default", VUndefined)] opts.
Proof.
  intros Hnd Htype.
  assert (∀ literal tag bare,
    spread (object_literal literal) Config.baseDefaults = bare →
    get_prop bare "type" = Some (VStr tag) →
    constructs (λ o, spread (spread (object_literal literal) Config.baseDefaults)
                            (default [] o)) tag bare opts) as Hc.
  { intros literal tag bare Hbare Htag. unfold constructs. cbn [from_option id].
    rewrite Hbare. split_and!; [done..| | |].
    - by rewrite get_prop_spread, get_prop_reverse, Htype.
    - intros k v Hk. by rewrite get_prop_spread, get_prop_reverse, Hk.
    - intros k Hk. by rewrite get_prop_spread, get_prop_reverse, Hk. }
  split_and!; apply Hc; reflexivity.
Qed.

End ConfigFacts.

(** ** [baseDefineCollection] and [_setMeta] *)

Module DefineFacts.
Import JS Define PropsFacts.

Lemma get_prop_fmap {A B} (f : A → B) (o : list (string * A)) k :
  get_prop (prod_map id f <$> o) k = f <$> get_prop o k.
Proof.
  induction o as [|[k' v'] o IH]; csimpl; [done|]. by case_decide.
Qed.

Lemma keys_fmap {A B} (f : A → B) (o : list (string * A)) :
  keys (prod_map id f <$> o) = keys o.
Proof.
  unfold keys. rewrite <-list_fmap_compose. by apply list_fmap_ext; intros ? [? ?].
Qed.

(** A key holds the field object [l] in at most one place when no field
    object is shared. *)
Lemma get_prop_inj (fields : list (string * loc)) k1 k2 l :
  NoDup fields.*2 →
  get_prop fields k1 = Some l → get_prop fields k2 = Some l → k1 = k2.
Proof.
  induction fields as [|[k' l'] fields IH]; csimpl; [done|].
  rewrite NoDup_cons. intros [Hl' Hnd].
  assert (∀ k, get_prop fields k = Some l' → False) as Hnot.
  { intros k Hk%get_prop_Some_elem_of. apply Hl'.
    apply list_elem_of_fmap. by exists (k, l'). }
  repeat case_decide; subst; intros; simplify_eq; try done.
  - by destruct (Hnot k2).
  - by destruct (Hnot k1).
  - by apply IH.
Qed.

Section WithTable.
Context {Table : Type} (getTableName : Table → string).

Implicit Types (σ : store Table) (l field meta : loc) (k : string) (v : value)
  (fields : list (string * loc)).

(** *** One assignment *)

Lemma metas_assign field k v σ : metas (assign field k v σ) = metas σ.
Proof. done. Qed.

Lemma allocated_assign field k v σ l :
  is_Some (objects (assign field k v σ) !! l) ↔ is_Some (objects σ !! l).
Proof.
  unfold assign. simpl. rewrite lookup_alter. case_decide; [subst|done].
  by rewrite fmap_is_Some.
Qed.

Lemma objects_assign_ne field k v σ l :
  field ≠ l → objects (assign field k v σ) !! l = objects σ !! l.
Proof. intros Hne. unfold assign. simpl. by rewrite lookup_alter_ne. Qed.

Lemma field_prop_assign field k v σ l k' :
  field_prop (assign field k v σ) l k' =
    if decide (field = l ∧ k = k' ∧ is_Some (objects σ !! l)) then Some v
    else field_prop σ l k'.
Proof.
  unfold field_prop, assign. simpl. rewrite lookup_alter.
  destruct (decide (field = l)) as [->|Hne].
  - destruct (objects σ !! l) as [o|] eqn:Ho; simpl.
    + rewrite get_prop_set. destruct (decide (k = k')).
      * rewrite decide_True; [done | eauto].
      * rewrite decide_False; [done | tauto].
    + rewrite decide_False; [done|]. intros (_ & _ & [? ?]); done.
  - rewrite decide_False; [done | tauto].
Qed.

(** *** The loop over the fields *)

Lemma visit_snoc fields k f ks x σ :
  visit fields k f (ks ++ [x]) σ =
    match get_prop fields x with
    | Some field => assign field k (f x) (visit fields k f ks σ)
    | None => visit fields k f ks σ
    end.
Proof. unfold visit. by rewrite foldl_snoc. Qed.

Lemma metas_visit fields k f ks σ : metas (visit fields k f ks σ) = metas σ.
Proof.
  induction ks as [|x ks IH] using rev_ind; [done|].
  rewrite visit_snoc. by destruct (get_prop fields x).
Qed.

Lemma allocated_visit fields k f ks σ l :
  is_Some (objects (visit fields k f ks σ) !! l) ↔ is_Some (objects σ !! l).
Proof.
  induction ks as [|x ks IH] using rev_ind; [done|].
  rewrite visit_snoc. destruct (get_prop fields x); [|done].
  by rewrite allocated_assign.
Qed.

(** Only the property [k] is written. *)
Lemma field_prop_visit_ne fields k f ks σ l k' :
  k ≠ k' → field_prop (visit fields k f ks σ) l k' = field_prop σ l k'.
Proof.
  intros Hne. induction ks as [|x ks IH] using rev_ind; [done|].
  rewrite visit_snoc. destruct (get_prop fields x); [|done].
  rewrite field_prop_assign, decide_False; [done | tauto].
Qed.

(** Only the field objects of the record are written. *)
Lemma objects_visit_other fields k f ks σ l :
  (∀ x, get_prop fields x ≠ Some l) →
  objects (visit fields k f ks σ) !! l = objects σ !! l.
Proof.
  intros Hl. induction ks as [|x ks IH] using rev_ind; [done|].
  rewrite visit_snoc. destruct (get_prop fields x) as [l'|] eqn:Hx; [|done].
  rewrite objects_assign_ne; [done|]. intros ->. by eapply Hl.
Qed.

(** Writing the same value everywhere: every field object visited
    holds it. *)
Lemma field_prop_visit_const fields k v ks σ x l :
  x ∈ ks → get_prop fields x = Some l → is_Some (objects σ !! l) →
  field_prop (visit fields k (λ _, v) ks σ) l k = Some v.
Proof.
  intros Hx Hl Halloc. induction ks as [|y ks IH] using rev_ind.
  { by apply elem_of_nil in Hx. }
  rewrite visit_snoc. destruct (get_prop fields y) as [l'|] eqn:Hy.
  - rewrite field_prop_assign. case_decide as Hd; [done|].
    apply elem_of_app in Hx as [Hx|Hx%list_elem_of_singleton]; [by apply IH|].
    subst y. simplify_eq. destruct Hd. split_and!; [done..|].
    by apply allocated_visit.
  - apply elem_of_app in Hx as [Hx|Hx%list_elem_of_singleton]; [by apply IH|].
    congruence.
Qed.

(** Writing the key: a field object that no other key holds gets the
    key it is under. *)
Lemma field_prop_visit_key fields k (f : string → value) ks σ x l :
  NoDup fields.*2 →
  x ∈ ks → get_prop fields x = Some l → is_Some (objects σ !! l) →
  field_prop (visit fields k f ks σ) l k = Some (f x).
Proof.
  intros Hnd Hx Hl Halloc. induction ks as [|y ks IH] using rev_ind.
  { by apply elem_of_nil in Hx. }
  rewrite visit_snoc. destruct (get_prop fields y) as [l'|] eqn:Hy.
  - rewrite field_prop_assign. case_decide as Hd.
    + destruct Hd as (-> & _ & _). by rewrite (get_prop_inj fields x y l).
    + apply elem_of_app in Hx as [Hx|Hx%list_elem_of_singleton]; [by apply IH|].
      subst y. simplify_eq. destruct Hd. split_and!; [done..|].
      by apply allocated_visit.
  - apply elem_of_app in Hx as [Hx|Hx%list_elem_of_singleton]; [by apply IH|].
    congruence.
Qed.

Lemma for_in_fields_visit fields k f σ :
  for_in_fields fields k f σ = visit fields k f (keys fields) σ.
Proof. done. Qed.

(** *** The collection object *)

(** The properties of the object [baseDefineCollection] returns. *)
Lemma baseDefineCollection_get userConfig writable σ k :
  NoDup (keys userConfig) →
  get_prop (baseDefineCollection userConfig writable σ).1 k =
    if decide (k = "_setMeta")
    then Some (CSetMeta (fresh (dom (metas σ))) (config_fields userConfig))
    else if decide (k = "writable") then Some (CData (UValue (VBool writable)))
    else if decide (k = "table") then Some (CGetTable (fresh (dom (metas σ))))
    else CData <$> get_prop userConfig k.
Proof.
  intros Hnd. unfold baseDefineCollection. cbn [fst].
  rewrite for_in_fields_visit, metas_visit, get_prop_spread.
  change (reverse [("table", ?a); ("writable", ?b); ("_setMeta", ?c)])
    with [("_setMeta", c); ("writable", b); ("table", a)].
  cbn [get_prop]. repeat (case_decide; [done|]).
  rewrite get_prop_spread, get_prop_reverse, get_prop_fmap by by rewrite keys_fmap.
  by destruct (get_prop userConfig k).
Qed.

Lemma baseDefineCollection_fields userConfig writable σ :
  NoDup (keys userConfig) →
  fields_of (baseDefineCollection userConfig writable σ).1 = config_fields userConfig.
Proof.
  intros Hnd. unfold fields_of, config_fields.
  rewrite baseDefineCollection_get by done. simpl.
  by destruct (get_prop userConfig "fields") as [[]|].
Qed.

Lemma baseDefineCollection_store userConfig writable σ :
  (baseDefineCollection userConfig writable σ).2 =
    Store (objects (visit (config_fields userConfig) "name" VStr
                      (keys (config_fields userConfig)) σ))
          (<[fresh (dom (metas σ)) := TNull]> (metas σ)).
Proof.
  unfold baseDefineCollection. cbn [snd].
  by rewrite for_in_fields_visit, metas_visit.
Qed.

Lemma baseDefineCollection_get_table userConfig writable σ :
  NoDup (keys userConfig) →
  get_prop (baseDefineCollection userConfig writable σ).1 "table" =
    Some (CGetTable (fresh (dom (metas σ)))).
Proof. intros Hnd. by rewrite baseDefineCollection_get. Qed.

Lemma table_getter (collection : list (string * cvalue)) meta σ :
  get_prop collection "table" = Some (CGetTable meta) →
  table collection σ = metas σ !! meta.
Proof.
  unfold table, read_prop. intros ->. by destruct (metas σ !! meta).
Qed.

Lemma baseDefineCollection_table userConfig writable σ :
  NoDup (keys userConfig) →
  table (baseDefineCollection userConfig writable σ).1
        (baseDefineCollection userConfig writable σ).2 = Some TNull.
Proof.
  intros Hnd. rewrite (table_getter _ _ _ (baseDefineCollection_get_table _ _ _ Hnd)).
  rewrite baseDefineCollection_store. apply lookup_insert_eq.
Qed.

Lemma baseDefineCollection_call_setMeta userConfig writable σ t σ1 :
  NoDup (keys userConfig) →
  call_setMeta getTableName (baseDefineCollection userConfig writable σ).1 t σ1 =
    Some (_setMeta getTableName (fresh (dom (metas σ))) (config_fields userConfig) t σ1).
Proof.
  intros Hnd. unfold call_setMeta. by rewrite baseDefineCollection_get by done.
Qed.

(** Both entry points are [baseDefineCollection]. *)
Lemma define_cases
    (define : list (string * uvalue) → store Table → list (string * cvalue) * store Table) :
  define ∈ [defineCollection; defineWritableCollection] →
  ∃ writable, define = λ userConfig, baseDefineCollection userConfig writable.
Proof.
  intros [->|[->|[]%elem_of_nil]%elem_of_cons]%elem_of_cons; eauto.
Qed.

Abbreviation definer :=
  (list (string * uvalue) → store Table → list (string * cvalue) * store Table) (only parsing).

(** C1, amended.  For a configuration object whose [fields] record holds
    a different field object under each key, the [fields] of the
    collection returned by [defineCollection] or
    [defineWritableCollection] map every key to a field whose [name] is
    that key.  (The two other hypotheses say that the configuration is
    an object, with distinct keys, and that its fields are objects of
    the store.) *)
Theorem defineCollection_names_fields (define : definer) userConfig σ :
  define ∈ [defineCollection; defineWritableCollection] →
  NoDup (keys userConfig) →
  NoDup (config_fields userConfig).*2 →
  (∀ k l, get_prop (config_fields userConfig) k = Some l → is_Some (objects σ !! l)) →
  ∀ k l, get_prop (fields_of (define userConfig σ).1) k = Some l →
         field_prop (define userConfig σ).2 l "name" = Some (VStr k).
Proof.
  intros [writable ->]%define_cases Hobj Hshare Halloc k l.
  rewrite baseDefineCollection_fields, baseDefineCollection_store by done.
  intros Hk. unfold field_prop at 1. cbn [objects].
  apply (field_prop_visit_key _ _ VStr); [done| |done|by eapply Halloc].
  apply get_prop_is_Some. by rewrite Hk.
Qed.

(** C2.  [_setMeta], called with a table on a collection returned by
    [defineCollection] or [defineWritableCollection], in any store where
    the fields of the collection are objects, leaves a store in which
    the [table] of the collection is that table and the [collection] of
    every field is the name of that table. *)
Theorem setMeta_binds_table (define : definer) userConfig σ t σ1 :
  define ∈ [defineCollection; defineWritableCollection] →
  NoDup (keys userConfig) →
  (∀ k l, get_prop (fields_of (define userConfig σ).1) k = Some l →
          is_Some (objects σ1 !! l)) →
  ∃ σ2, call_setMeta getTableName (define userConfig σ).1 t σ1 = Some σ2
        ∧ table (define userConfig σ).1 σ2 = Some (TTable t)
        ∧ ∀ k l, get_prop (fields_of (define userConfig σ).1) k = Some l →
                 field_prop σ2 l "collection" = Some (VStr (getTableName t)).
Proof.
  intros [writable ->]%define_cases Hobj Halloc.
  rewrite baseDefineCollection_fields in * by done.
  eexists. split; [by apply baseDefineCollection_call_setMeta|].
  unfold _setMeta. rewrite for_in_fields_visit. split.
  - rewrite (table_getter _ _ _ (baseDefineCollection_get_table _ _ _ Hobj)).
    rewrite metas_visit. apply lookup_insert_eq.
  - intros k l Hk. eapply field_prop_visit_const; [|done|by eapply Halloc].
    apply get_prop_is_Some. by rewrite Hk.
Qed.

(** C10, amended.  In the store that [defineCollection] or
    [defineWritableCollection] leaves, the [table] of the returned
    collection is [null] and the [collection] of every field object is
    what it was before the call (unset when the configuration gave
    none).  A call of [_setMeta] changes nothing that the collection
    gives for a key other than [table] (so not [writable], [indexes],
    [foreignKeys] nor [fields]), no property of a field object other
    than [collection] (so no name, type or default), no object that is
    not a field of the collection, and no table binding but that of the
    collection. *)
Theorem setMeta_frame (define : definer) userConfig σ :
  define ∈ [defineCollection; defineWritableCollection] →
  NoDup (keys userConfig) →
  table (define userConfig σ).1 (define userConfig σ).2 = Some TNull
  ∧ (∀ l, field_prop (define userConfig σ).2 l "collection" = field_prop σ l "collection")
  ∧ ∀ t σ1 σ2,
      call_setMeta getTableName (define userConfig σ).1 t σ1 = Some σ2 →
      (∀ k, k ≠ "table" →
            read_prop (define userConfig σ).1 k σ2 = read_prop (define userConfig σ).1 k σ1)
      ∧ (∀ l k, k ≠ "collection" → field_prop σ2 l k = field_prop σ1 l k)
      ∧ (∀ l, (∀ k, get_prop (fields_of (define userConfig σ).1) k ≠ Some l) →
              objects σ2 !! l = objects σ1 !! l)
      ∧ (∀ meta, get_prop (define userConfig σ).1 "table" ≠ Some (CGetTable meta) →
                 metas σ2 !! meta = metas σ1 !! meta).
Proof.
  intros [writable ->]%define_cases Hobj. split_and!.
  - by apply baseDefineCollection_table.
  - intros l. rewrite baseDefineCollection_store. unfold field_prop at 1. cbn [objects].
    by apply (field_prop_visit_ne _ "name").
  - intros t σ1 σ2. rewrite baseDefineCollection_call_setMeta by done.
    intros [= <-]. unfold _setMeta. rewrite for_in_fields_visit.
    rewrite baseDefineCollection_fields by done. split_and!.
    + intros k Hk. unfold read_prop. rewrite baseDefineCollection_get by done.
      repeat (case_decide; [done|]). by destruct (get_prop userConfig k).
    + intros l k Hk. by rewrite field_prop_visit_ne.
    + intros l Hl. by rewrite objects_visit_other.
    + intros meta. rewrite baseDefineCollection_get by done. simpl.
      intros Hmeta. rewrite metas_visit. simpl.
      rewrite lookup_insert_ne; [done | congruence].
Qed.

(** C5.  [defineCollection] returns a collection whose [writable] is
    [false] and [defineWritableCollection] one whose [writable] is
    [true], in [config.ts] and in [part_000] alike, and every other
    property of the configuration ([fields], [indexes], [foreignKeys],
    [data], [seed]) is in the result as it was given; in [part_000] this
    holds for every key but [table] and [_setMeta], which the result
    defines itself.  (The hypotheses say that the configurations are
    objects, with distinct keys.) *)
Theorem define_tags_and_carries_over (cfg : list (string * value))
    (userConfig : list (string * uvalue)) σ :
  NoDup (keys cfg) →
  NoDup (keys userConfig) →
  (get_prop (Config.defineCollection cfg) "writable" = Some (VBool false)
   ∧ get_prop (Config.defineWritableCollection cfg) "writable" = Some (VBool true)
   ∧ ∀ k, k ≠ "writable" →
       get_prop (Config.defineCollection cfg) k = get_prop cfg k
       ∧ get_prop (Config.defineWritableCollection cfg) k = get_prop cfg k)
  ∧ (get_prop (defineCollection userConfig σ).1 "writable"
       = Some (CData (UValue (VBool false)))
     ∧ get_prop (defineWritableCollection userConfig σ).1 "writable"
       = Some (CData (UValue (VBool true)))
     ∧ ∀ k, k ∉ ["writable"; "table"; "_setMeta"] →
         get_prop (defineCollection userConfig σ).1 k = CData <$> get_prop userConfig k
         ∧ get_prop (defineWritableCollection userConfig σ).1 k
           = CData <$> get_prop userConfig k).
Proof.
  intros Hcfg Hobj. split.
  - unfold Config.defineCollection, Config.defineWritableCollection.
    rewrite !get_prop_set_eq. split_and!; [done..|].
    intros k Hk. rewrite !get_prop_set_ne, get_prop_spread, get_prop_reverse by done.
    by destruct (get_prop cfg k).
  - unfold defineCollection, defineWritableCollection.
    rewrite !baseDefineCollection_get by done. split_and!; [done..|].
    intros k Hk. rewrite !baseDefineCollection_get by done.
    rewrite !not_elem_of_cons in Hk. destruct Hk as (? & ? & ? & _).
    by rewrite !decide_False by done.
Qed.

End WithTable.

(** C1, as stated, fails when two keys hold the same field object: the
    loop writes [name] twice into it, and the field under [a] is named
    [b]. *)
Lemma shared_field_named_after_last_key :
  get_prop (fields_of
    (@defineCollection Sample.sqlite_table [("fields", UFields [("a", 0); ("b", 0)])]
       (Store {[ 0 := [("type", VStr "text")] ]} ∅)).1) "a" = Some 0
  ∧ field_prop
      (@defineCollection Sample.sqlite_table [("fields", UFields [("a", 0); ("b", 0)])]
         (Store {[ 0 := [("type", VStr "text")] ]} ∅)).2 0 "name" = Some (VStr "b").
Proof. split; reflexivity. Qed.

(** C10, as stated, fails on a field object that already has a
    [collection]: it still has it after [defineCollection], before any
    call of [_setMeta]. *)
Lemma collection_set_before_setMeta :
  get_prop (fields_of
    (@defineCollection Sample.sqlite_table [("fields", UFields [("title", 0)])]
       (Store {[ 0 := [("type", VStr "text"); ("collection", VStr "posts")] ]} ∅)).1)
    "title" = Some 0
  ∧ field_prop
      (@defineCollection Sample.sqlite_table [("fields", UFields [("title", 0)])]
         (Store {[ 0 := [("type", VStr "text"); ("collection", VStr "posts")] ]} ∅)).2
      0 "collection" = Some (VStr "posts").
Proof. split; reflexivity. Qed.

End DefineFacts.

(** ** Instances *)

Module Examples.
Import JS Zod Types Define Sample PropsFacts ZodFacts SchemaFacts ConfigFacts DefineFacts.

Lemma blog_config_object : NoDup (keys blog_config).
Proof. by_compute. Defined.

Lemma blog_config_unshared : NoDup (config_fields blog_config).*2.
Proof. by_compute. Defined.

Lemma blog_config_allocated (σ : store sqlite_table) :
  (∀ l, l ∈ [0; 1] → is_Some (objects σ !! l)) →
  ∀ k l, get_prop (config_fields blog_config) k = Some l → is_Some (objects σ !! l).
Proof.
  intros Hσ k l. unfold blog_config, config_fields. simpl.
  repeat case_decide; intros [= <-]; apply Hσ; by_compute.
Defined.

Lemma blog_store_allocated l : l ∈ [0; 1] → is_Some (objects blog_store !! l).
Proof.
  intros [->|[->|[]%elem_of_nil]%elem_of_cons]%elem_of_cons; by_compute.
Defined.

Lemma defineCollection_names_fields_witness :
  NoDup (keys blog_config)
  ∧ NoDup (config_fields blog_config).*2
  ∧ (∀ k l, get_prop (config_fields blog_config) k = Some l →
            is_Some (objects blog_store !! l))
  ∧ (∀ k l, get_prop (fields_of (defineCollection blog_config blog_store).1) k = Some l →
            field_prop (defineCollection blog_config blog_store).2 l "name" = Some (VStr k)).
Proof.
  split_and!;
    [ apply blog_config_object | apply blog_config_unshared
    | apply blog_config_allocated, blog_store_allocated | ].
  apply (defineCollection_names_fields defineCollection blog_config blog_store).
  - left.
  - apply blog_config_object.
  - apply blog_config_unshared.
  - apply blog_config_allocated, blog_store_allocated.
Defined.

Lemma blog_defined_allocated l :
  l ∈ [0; 1] →
  is_Some (objects (defineWritableCollection blog_config blog_store).2 !! l).
Proof.
  intros [->|[->|[]%elem_of_nil]%elem_of_cons]%elem_of_cons; by_compute.
Defined.

Lemma blog_fields_allocated k l :
  get_prop (fields_of (defineWritableCollection blog_config blog_store).1) k = Some l →
  is_Some (objects (defineWritableCollection blog_config blog_store).2 !! l).
Proof.
  unfold defineWritableCollection.
  rewrite baseDefineCollection_fields by apply blog_config_object.
  apply blog_config_allocated, blog_defined_allocated.
Defined.

Lemma setMeta_binds_table_witness :
  NoDup (keys blog_config)
  ∧ (∀ k l,
       get_prop (fields_of (defineWritableCollection blog_config blog_store).1) k = Some l →
       is_Some (objects (defineWritableCollection blog_config blog_store).2 !! l))
  ∧ ∃ σ2,
      call_setMeta table_name (defineWritableCollection blog_config blog_store).1
        posts (defineWritableCollection blog_config blog_store).2 = Some σ2
      ∧ table (defineWritableCollection blog_config blog_store).1 σ2 = Some (TTable posts)
      ∧ ∀ k l,
          get_prop (fields_of (defineWritableCollection blog_config blog_store).1) k
            = Some l →
          field_prop σ2 l "collection" = Some (VStr "Post").
Proof.
  split_and!; [apply blog_config_object | apply blog_fields_allocated |].
  apply (setMeta_binds_table table_name defineWritableCollection
           blog_config blog_store posts).
  - right. left.
  - apply blog_config_object.
  - apply blog_fields_allocated.
Defined.

Lemma setMeta_frame_witness :
  NoDup (keys blog_config)
  ∧ table (defineCollection blog_config blog_store).1
          (defineCollection blog_config blog_store).2 = Some TNull
  ∧ (∀ l, field_prop (defineCollection blog_config blog_store).2 l "collection"
          = field_prop blog_store l "collection")
  ∧ ∀ t σ1 σ2,
      call_setMeta table_name (defineCollection blog_config blog_store).1 t σ1
        = Some σ2 →
      (∀ k, k ≠ "table" →
            read_prop (defineCollection blog_config blog_store).1 k σ2
            = read_prop (defineCollection blog_config blog_store).1 k σ1)
      ∧ (∀ l k, k ≠ "collection" → field_prop σ2 l k = field_prop σ1 l k)
      ∧ (∀ l, (∀ k, get_prop (fields_of (defineCollection blog_config blog_store).1) k
                    ≠ Some l) →
              objects σ2 !! l = objects σ1 !! l)
      ∧ (∀ meta, get_prop (defineCollection blog_config blog_store).1 "table"
                 ≠ Some (CGetTable meta) →
                 metas σ2 !! meta = metas σ1 !! meta).
Proof.
  split; [apply blog_config_object|].
  apply (setMeta_frame table_name defineCollection blog_config blog_store).
  - left.
  - apply blog_config_object.
Defined.

Lemma define_tags_and_carries_over_witness :
  NoDup (keys site_config)
  ∧ NoDup (keys blog_config)
  ∧ (get_prop (Config.defineCollection site_config) "writable" = Some (VBool false)
     ∧ get_prop (Config.defineWritableCollection site_config) "writable" = Some (VBool true)
     ∧ ∀ k, k ≠ "writable" →
         get_prop (Config.defineCollection site_config) k = get_prop site_config k
         ∧ get_prop (Config.defineWritableCollection site_config) k = get_prop site_config k)
  ∧ (get_prop (defineCollection blog_config blog_store).1 "writable"
       = Some (CData (UValue (VBool false)))
     ∧ get_prop (defineWritableCollection blog_config blog_store).1 "writable"
       = Some (CData (UValue (VBool true)))
     ∧ ∀ k, k ∉ ["writable"; "table"; "_setMeta"] →
         get_prop (defineCollection blog_config blog_store).1 k
           = CData <$> get_prop blog_config k
         ∧ get_prop (defineWritableCollection blog_config blog_store).1 k
           = CData <$> get_prop blog_config k).
Proof.
  assert (NoDup (keys site_config)) as Hsite by by_compute.
  split; [exact Hsite|]. split; [apply blog_config_object|].
  apply (define_tags_and_carries_over site_config blog_config blog_store Hsite).
  apply blog_config_object.
Defined.

Lemma field_constructors_witness :
  NoDup (keys title_opts)
  ∧ get_prop title_opts "type" = None
  ∧ constructs Config.field.text "text"
      [("type", VStr "text"); ("multiline", VBool false); ("optional", VBool false);
       ("unique", VBool false); ("label", VUndefined); ("default", VUndefined)]
      title_opts
  ∧ Config.field.text (Some title_opts) =
      [("type", VStr "text"); ("multiline", VBool false); ("optional", VBool true);
       ("unique", VBool false); ("label", VStr "Title"); ("default", VUndefined)].
Proof.
  assert (NoDup (keys title_opts)) as Hobj by by_compute.
  split_and!; [exact Hobj | reflexivity | | reflexivity].
  by apply (field_constructors title_opts Hobj).
Defined.

(** *** [defineCollection] and [_setMeta] on an example *)

Example blog_defined :
  (defineCollection blog_config blog_store).1 =
    [ ("fields", CData (UFields [("id", 0); ("title", 1)]));
      ("indexes", CData (UValue (VObj [("by_title", VObj [("on", VStr "title")])])));
      ("table", CGetTable 0);
      ("writable", CData (UValue (VBool false)));
      ("_setMeta", CSetMeta 0 [("id", 0); ("title", 1)]) ]
  ∧ table (defineCollection blog_config blog_store).1
          (defineCollection blog_config blog_store).2 = Some TNull
  ∧ objects (defineCollection blog_config blog_store).2 !! 1
    = Some [("type", VStr "text"); ("name", VStr "title")].
Proof. split_and!; reflexivity. Qed.

Example blog_bound :
  (λ σ, (table (defineCollection blog_config blog_store).1 σ, objects σ !! 1)) <$>
    call_setMeta table_name (defineCollection blog_config blog_store).1 posts
      (defineCollection blog_config blog_store).2
  = Some (Some (TTable posts),
          Some [("type", VStr "text"); ("name", VStr "title"); ("collection", VStr "Post")]).
Proof. reflexivity. Qed.

(** *** The schemas on examples *)

Example date_default_epoch :
  @fieldSchema Sample.runtime
    (VObj [("type", VStr "date"); ("default", VNum (Finite 0 0))])
  = Some (VObj [("type", VStr "date"); ("default", VStr "1970-01-01T00:00:00.000Z")]).
Proof. reflexivity. Qed.

Example date_default_leap_day :
  @fieldSchema Sample.runtime
    (VObj [("type", VStr "date"); ("default", VDate (Some 951782400000%Z))])
  = Some (VObj [("type", VStr "date"); ("default", VStr "2000-02-29T00:00:00.000Z")]).
Proof. reflexivity. Qed.

Example date_default_now :
  @fieldSchema Sample.runtime
    (VObj [("type", VStr "date"); ("default", VStr "now"); ("label", VStr "Created")])
  = Some (VObj [("label", VStr "Created"); ("type", VStr "date"); ("default", VStr "now")]).
Proof. reflexivity. Qed.

Example date_default_invalid :
  @fieldSchema Sample.runtime (VObj [("type", VStr "date"); ("default", VDate None)]) = None.
Proof. reflexivity. Qed.

Example unknown_type_rejected :
  @fieldSchema Sample.runtime (VObj [("type", VStr "uuid")]) = None.
Proof. reflexivity. Qed.

(** A [references] that returns a number field is kept, with the field
    parsed; one that returns a boolean field throws when called. *)
Example text_references_number :
  @fieldSchema Sample.runtime
    (VObj [("type", VStr "text");
           ("references", VFun (Some (VObj [("type", VStr "number"); ("extra", VNull)])))])
  = Some (VObj [("type", VStr "text");
                ("references", VFun (Some (VObj [("type", VStr "number")])))]).
Proof. reflexivity. Qed.

Example text_references_boolean :
  @fieldSchema Sample.runtime
    (VObj [("type", VStr "text");
           ("references", VFun (Some (VObj [("type", VStr "boolean")])))])
  = Some (VObj [("type", VStr "text"); ("references", VFun None)]).
Proof. reflexivity. Qed.

Example boolean_references_stripped :
  @fieldSchema Sample.runtime
    (VObj [("type", VStr "boolean");
           ("references", VFun (Some (VObj [("type", VStr "number")])))])
  = Some (VObj [("type", VStr "boolean")]).
Proof. reflexivity. Qed.

Example collection_without_indexes :
  @collectionSchema Sample.runtime
    (VObj [("fields", VObj [("title", VObj [("type", VStr "text")])]);
           ("writable", VBool true)])
  = Some (VObj [("fields", VObj [("title", VObj [("type", VStr "text")])]);
                ("writable", VBool true)]).
Proof. reflexivity. Qed.

Example collection_without_writable :
  @collectionSchema Sample.runtime
    (VObj [("fields", VObj [("title", VObj [("type", VStr "text")])])]) = None.
Proof. reflexivity. Qed.

End Examples.

(** * Further properties *)

(** ** Fields: dispatch on the tag, stripping, and what is kept *)

Module FieldFacts.
Import JS Zod Types PropsFacts ZodFacts SchemaFacts.

Section WithRuntime.
Context `{DateRuntime}.

Implicit Types (v r : value) (data out : list (string * value)) (k : string)
  (s : schema) (o : ZodObject).

(** The five field schemas with their tags. *)
Definition tagged_schemas : list (ZodObject * string) := [
  (booleanFieldSchema, "boolean");
  (numberFieldSchema, "number");
  (textFieldSchema, "text");
  (dateFieldSchema, "date");
  (jsonFieldSchema, "json")
].

Ltac tag_entry :=
  unfold numberFieldSchema, textFieldSchema;
  first [ rewrite shape_booleanFieldSchema | rewrite shape_numberFieldSchemaF
        | rewrite shape_textFieldSchemaF | rewrite shape_dateFieldSchema
        | rewrite shape_jsonFieldSchema ];
  apply elem_of_app; right; left.

Lemma tagged_schemas_type o tag :
  (o, tag) ∈ tagged_schemas → ("type", z_literal (VStr tag)) ∈ shape o.
Proof.
  unfold tagged_schemas. intros Hin.
  repeat (apply elem_of_cons in Hin as [[= -> ->]|Hin]; [tag_entry|]).
  by apply elem_of_nil in Hin.
Qed.

Lemma tagged_schemas_NoDup o tag : (o, tag) ∈ tagged_schemas → NoDup (keys (shape o)).
Proof.
  unfold tagged_schemas. intros Hin.
  repeat (apply elem_of_cons in Hin as [[= -> ->]|Hin]; [by_compute|]).
  by apply elem_of_nil in Hin.
Qed.

Lemma parse_wrong_tag o tag data :
  ("type", z_literal (VStr tag)) ∈ shape o →
  prop data "type" ≠ VStr tag →
  parse o (VObj data) = None.
Proof.
  intros Hin Hne. apply eq_None_not_Some. intros Hs.
  destruct (parse_type_tag o tag _ Hin Hs) as (? & [= <-] & ?). done.
Qed.

Lemma fieldSchema_dispatch_aux o tag data :
  (o, tag) ∈ tagged_schemas →
  prop data "type" = VStr tag →
  fieldSchema (VObj data) = parse o (VObj data).
Proof.
  intros Hin Ht. unfold fieldSchema. cbn [z_union].
  assert (∀ o' tag', ("type", z_literal (VStr tag')) ∈ shape o' → tag' ≠ tag →
            parse o' (VObj data) = None) as Hno.
  { intros o' tag' Hin' Hne. apply (parse_wrong_tag o' tag'); [done|].
    rewrite Ht. congruence. }
  unfold tagged_schemas in Hin.
  repeat (apply elem_of_cons in Hin as [[= -> ->]|Hin];
    [ repeat first
        [ rewrite (Hno booleanFieldSchema "boolean") by (tag_entry || done)
        | rewrite (Hno numberFieldSchema "number") by (tag_entry || done)
        | rewrite (Hno textFieldSchema "text") by (tag_entry || done)
        | rewrite (Hno dateFieldSchema "date") by (tag_entry || done)
        | rewrite (Hno jsonFieldSchema "json") by (tag_entry || done) ];
      repeat match goal with |- context [match ?x with _ => _ end] => destruct x end;
      done |]).
  by apply elem_of_nil in Hin.
Qed.

(** X1.  The field schema dispatches on the tag: a value whose [type]
    is one of the five tags is parsed exactly as the schema of that tag
    parses it, and the schemas of the four other tags reject it. *)
Theorem fieldSchema_dispatch o tag data :
  (o, tag) ∈ tagged_schemas →
  prop data "type" = VStr tag →
  fieldSchema (VObj data) = parse o (VObj data)
  ∧ ∀ o' tag', (o', tag') ∈ tagged_schemas → tag' ≠ tag → parse o' (VObj data) = None.
Proof.
  intros Ho Ht. split; [by apply (fieldSchema_dispatch_aux o tag)|].
  intros o' tag' Ho' Hne. apply (parse_wrong_tag o' tag').
  - by apply tagged_schemas_type.
  - rewrite Ht. congruence.
Qed.

(** A parsed field comes from the schema of its tag. *)
Lemma fieldSchema_Some_inv v r :
  fieldSchema v = Some r →
  ∃ o tag data out, (o, tag) ∈ tagged_schemas ∧ v = VObj data ∧ r = VObj out
    ∧ prop data "type" = VStr tag ∧ parse_shape (shape o) data = Some out.
Proof.
  intros Hr.
  destruct (fieldSchema_inv v (mk_is_Some _ _ Hr)) as (data & tag & -> & Ht & Htag).
  assert (∃ o, (o, tag) ∈ tagged_schemas) as [o Ho].
  { unfold FieldType in Htag. unfold tagged_schemas.
    repeat (apply elem_of_cons in Htag as [->|Htag];
      [eexists; repeat first [by left | right]|]).
    by apply elem_of_nil in Htag. }
  rewrite (fieldSchema_dispatch_aux o tag data Ho Ht) in Hr.
  apply parse_Some_inv in Hr as (? & out & [= <-] & -> & Hsh).
  by exists o, tag, data, out.
Qed.

(** *** Schemas that return their input *)

Definition passes s : Prop := ∀ v r, s v = Some r → r = v.

Lemma passes_string : passes z_string.
Proof. intros [] r; simpl; congruence. Qed.

Lemma passes_boolean : passes z_boolean.
Proof. intros [] r; simpl; congruence. Qed.

Lemma passes_number : passes z_number.
Proof. intros [| | |[]| | | | |] r; simpl; congruence. Qed.

Lemma passes_unknown : passes z_unknown.
Proof. intros v r. unfold z_unknown. congruence. Qed.

Lemma passes_literal lit : passes (z_literal lit).
Proof. intros v r. unfold z_literal. destruct (strict_equals v lit); congruence. Qed.

Lemma passes_optional s : passes s → passes (z_optional s).
Proof. intros Hs [] r; simpl; try apply Hs. congruence. Qed.

Create HintDb passes.
#[local] Hint Resolve passes_string passes_boolean passes_number passes_unknown
  passes_literal passes_optional : passes.

(** A key whose schema returns its input is in the output as in the
    input. *)
Lemma parse_shape_keeps sh data out k s :
  NoDup (keys sh) →
  parse_shape sh data = Some out →
  get_prop sh k = Some s →
  passes s →
  get_prop out k = get_prop data k.
Proof.
  intros Hnd Hsh Hk Hs.
  rewrite (parse_shape_get _ _ _ k Hnd Hsh), Hk. simpl.
  pose proof (proj1 (parse_shape_is_Some _ _) (mk_is_Some _ _ Hsh)) as Hall.
  rewrite Forall_forall in Hall.
  destruct (Hall _ (get_prop_Some_elem_of _ _ _ Hk)) as [r Hr]. simpl in Hr.
  rewrite Hr. simpl. rewrite (Hs _ _ Hr).
  destruct (get_prop data k) as [v|] eqn:Hd.
  - assert (has_prop data k = true) as -> by (apply has_prop_true; rewrite Hd; eauto).
    by rewrite (prop_Some _ _ _ Hd).
  - assert (has_prop data k = false) as -> by by apply has_prop_false.
    by rewrite (prop_None _ _ Hd).
Qed.

(** When no schema of the shape makes something out of [undefined],
    the output has only keys that the input has. *)
Lemma parse_shape_only_given sh data out k :
  Forall (λ ks, ∀ r, ks.2 VUndefined = Some r → r = VUndefined) sh →
  parse_shape sh data = Some out →
  is_Some (get_prop out k) →
  is_Some (get_prop data k) ∧ k ∈ keys sh.
Proof.
  intros Hundef Hsh Hk. split.
  - revert out Hsh Hk. induction Hundef as [|[k0 s0] sh Hs0 _ IH]; intros out; simpl.
    { by intros [= <-] [? ?]. }
    destruct (s0 (prop data k0)) as [r|] eqn:Hr; simpl; [|done].
    destruct (parse_shape sh data) as [out'|]; simpl; [|done].
    specialize (IH out' eq_refl).
    intros [= <-]. destruct (has_prop data k0) eqn:Hhas; simpl.
    + case_decide; [|done]. intros _. subst. by apply has_prop_true.
    + destruct (is_undefined r) eqn:Hu; simpl; [done|].
      apply has_prop_false in Hhas. rewrite (prop_None _ _ Hhas) in Hr.
      rewrite (Hs0 _ Hr) in Hu. done.
  - destruct (decide (k ∈ keys sh)) as [|Hno]; [done|].
    rewrite (parse_shape_None_key _ _ _ _ Hsh Hno) in Hk. by destruct Hk.
Qed.

Lemma tagged_schemas_undefined o tag :
  (o, tag) ∈ tagged_schemas →
  Forall (λ ks, ∀ r, ks.2 VUndefined = Some r → r = VUndefined) (shape o).
Proof.
  unfold tagged_schemas, numberFieldSchema, textFieldSchema. intros Hin.
  repeat (apply elem_of_cons in Hin as [[= -> ->]|Hin];
    [ first [ rewrite shape_booleanFieldSchema | rewrite shape_numberFieldSchemaF
            | rewrite shape_textFieldSchemaF | rewrite shape_dateFieldSchema
            | rewrite shape_jsonFieldSchema ];
      apply Forall_app; split;
      repeat (apply Forall_cons; split; [intros r; unfold z_literal; simpl; congruence|]);
      apply Forall_nil_2 |]).
  by apply elem_of_nil in Hin.
Qed.

(** X2.  A parsed field has no property that the input lacks or that
    the schema of its tag does not name: unknown keys are dropped
    without an error, and so are [primaryKey], [multiline] and
    [references] on the kinds of field that have none. *)
Theorem fieldSchema_strips data out :
  fieldSchema (VObj data) = Some (VObj out) →
  ∃ o tag, (o, tag) ∈ tagged_schemas ∧ prop data "type" = VStr tag
    ∧ ∀ k, is_Some (get_prop out k) → is_Some (get_prop data k) ∧ k ∈ keys (shape o).
Proof.
  intros (o & tag & ? & ? & Ho & [= <-] & [= <-] & Ht & Hsh)%fieldSchema_Some_inv.
  exists o, tag. split_and!; [done..|]. intros k.
  by apply parse_shape_only_given; [eapply tagged_schemas_undefined|].
Qed.

(** X3.  Validation returns the options of a field as they were given:
    [label], [optional], [unique], [name], [collection] and [type] of
    every field, [default] of every field but a date, [primaryKey] of a
    number or text field and [multiline] of a text field. *)
Theorem fieldSchema_keeps_options data out :
  fieldSchema (VObj data) = Some (VObj out) →
  (∀ k, k ∈ ["label"; "optional"; "unique"; "name"; "collection"; "type"] →
        get_prop out k = get_prop data k)
  ∧ (prop data "type" ≠ VStr "date" → get_prop out "default" = get_prop data "default")
  ∧ (prop data "type" = VStr "number" ∨ prop data "type" = VStr "text" →
     get_prop out "primaryKey" = get_prop data "primaryKey")
  ∧ (prop data "type" = VStr "text" →
     get_prop out "multiline" = get_prop data "multiline").
Proof.
  intros (o & tag & ? & ? & Ho & [= <-] & [= <-] & Ht & Hsh)%fieldSchema_Some_inv.
  pose proof (tagged_schemas_NoDup _ _ Ho) as Hnd.
  rewrite Ht. unfold tagged_schemas in Ho.
  repeat (apply elem_of_cons in Ho as [[= -> ->]|Ho];
    [ split_and!;
      [ intros k Hk;
        repeat (apply elem_of_cons in Hk as [->|Hk];
          [eapply parse_shape_keeps; [done..|reflexivity|simpl; auto with passes]|]);
        by apply elem_of_nil in Hk
      | intros Hd; first [ done
          | eapply parse_shape_keeps; [done..|reflexivity|simpl; auto with passes] ]
      | intros Hd; first [ by destruct Hd; simplify_eq
          | eapply parse_shape_keeps; [done..|reflexivity|simpl; auto with passes] ]
      | intros Hd; first [ by simplify_eq
          | eapply parse_shape_keeps; [done..|reflexivity|simpl; auto with passes] ] ]
    |]).
  by apply elem_of_nil in Ho.
Qed.

(** *** Parsing what was parsed *)

Lemma get_prop_elem_of {V} (o : list (string * V)) k (v : V) :
  NoDup (keys o) → (k, v) ∈ o → get_prop o k = Some v.
Proof.
  unfold keys. induction o as [|[k' v'] o IH]; csimpl.
  { by intros _ ?%elem_of_nil. }
  rewrite NoDup_cons. intros [Hk' Hnd] [[= -> ->]|Hin]%elem_of_cons.
  - by rewrite decide_True.
  - rewrite decide_False; [by apply IH|]. intros ->. apply Hk'.
    apply list_elem_of_fmap. by exists (k', v).
Qed.

(** Parsing [data'] gives what parsing [data] gave when every schema of
    the shape makes the same of both and the same keys are set. *)
Lemma parse_shape_replay sh data data' out :
  parse_shape sh data = Some out →
  (∀ k s r, (k, s) ∈ sh → s (prop data k) = Some r →
     s (prop data' k) = Some r
     ∧ has_prop data' k || negb (is_undefined r) = has_prop data k || negb (is_undefined r)) →
  parse_shape sh data' = Some out.
Proof.
  revert out. induction sh as [|[k s] sh IH]; intros out; simpl; [done|].
  destruct (s (prop data k)) as [r|] eqn:Hr; simpl; [|done].
  destruct (parse_shape sh data) as [out'|]; simpl; [|done].
  intros [= <-] Hsame. destruct (Hsame k s r) as [Hs Hc]; [left | done |].
  rewrite Hs. simpl. rewrite (IH out'); [|done|].
  - simpl. by rewrite Hc.
  - intros k' s' r' Hin. apply Hsame. by right.
Qed.

(** The output of an object schema is parsed into itself when each
    schema of the shape parses what it returned into itself. *)
Lemma parse_shape_idem sh data out :
  NoDup (keys sh) →
  parse_shape sh data = Some out →
  Forall (λ ks, ∀ r, ks.2 (prop data ks.1) = Some r → ks.2 r = Some r) sh →
  parse_shape sh out = Some out.
Proof.
  intros Hnd Hsh Hidem. apply (parse_shape_replay sh data); [done|].
  intros k s r Hin Hr. rewrite Forall_forall in Hidem.
  pose proof (Hidem _ Hin r Hr) as Hs. simpl in Hs.
  pose proof (parse_shape_get _ _ _ k Hnd Hsh) as Hout.
  rewrite (get_prop_elem_of _ _ _ Hnd Hin) in Hout. simpl in Hout.
  rewrite Hr in Hout. simpl in Hout.
  destruct (has_prop data k || negb (is_undefined r)) eqn:Hc.
  - rewrite (prop_Some _ _ _ Hout).
    assert (has_prop out k = true) as -> by (apply has_prop_true; rewrite Hout; eauto).
    done.
  - apply orb_false_iff in Hc as [_ Hu]. apply negb_false_iff, is_undefined_true in Hu.
    subst r. rewrite (prop_None _ _ Hout).
    assert (has_prop out k = false) as -> by by apply has_prop_false.
    done.
Qed.

Lemma passes_idem s v r : passes s → s v = Some r → s r = Some r.
Proof. intros Hs Hr. pose proof (Hs _ _ Hr). by subst. Qed.

(** The wrapper of [references] is wrapped into itself when the schema
    of the result parses its outputs into themselves. *)
Lemma references_idem (ref : schema) v r :
  (∀ w w', height w < height v → ref w = Some w' → ref w' = Some w') →
  z_optional (z_function_returns (z_lazy (λ _, ref))) v = Some r →
  z_optional (z_function_returns (z_lazy (λ _, ref))) r = Some r.
Proof.
  intros Href. destruct v as [| | | | | | | |[w|]]; simpl; try done;
    intros [= <-]; simpl; try done.
  unfold z_lazy. destruct (ref w) as [w'|] eqn:Hw; simpl; [|done].
  by rewrite (Href w w') by (simpl; lia || done).
Qed.

Ltac idem_entries Href :=
  apply Forall_app; split;
  repeat (apply Forall_cons; split;
    [ intros r0; simpl;
      first [ solve [apply passes_idem; auto with passes]
            | apply references_idem; intros w w' Hw; apply Href;
              match goal with |- context [height (VObj ?d)] =>
                pose proof (height_prop d "references") end; lia ] |]);
  apply Forall_nil_2.

Lemma referenceableFieldSchema_idem_upto n v r :
  height v < n →
  referenceableFieldSchema v = Some r → referenceableFieldSchema r = Some r.
Proof.
  revert v r. induction n as [|n IH]; intros v r Hn; [lia|].
  rewrite !referenceableFieldSchema_unfold. cbn [z_union].
  destruct v as [| | | | | | |data|]; try done.
  assert (∀ w w', height w < height (VObj data) - 1 →
            referenceableFieldSchema w = Some w' → referenceableFieldSchema w' = Some w')
    as Href by (intros w w' Hw; apply IH; lia).
  destruct (parse textFieldSchema (VObj data)) as [r'|] eqn:Htext.
  - intros [= <-].
    apply parse_Some_inv in Htext as (? & out & [= <-] & -> & Hsh).
    assert (parse_shape (shape textFieldSchema) out = Some out) as Hout.
    { apply (parse_shape_idem _ data); [by_compute | done |].
      unfold textFieldSchema. rewrite shape_textFieldSchemaF. idem_entries Href. }
    unfold parse at 1. by rewrite Hout.
  - destruct (parse numberFieldSchema (VObj data)) as [r'|] eqn:Hnum; [|done].
    intros [= <-].
    assert (prop data "type" = VStr "number") as Hd.
    { destruct (parse_type_tag numberFieldSchema "number" (VObj data))
        as (? & [= <-] & Hd); [tag_entry | by rewrite Hnum | done]. }
    apply parse_Some_inv in Hnum as (? & out & [= <-] & -> & Hsh).
    assert (parse_shape (shape numberFieldSchema) out = Some out) as Hout.
    { apply (parse_shape_idem _ data); [by_compute | done |].
      unfold numberFieldSchema. rewrite shape_numberFieldSchemaF. idem_entries Href. }
    assert (prop out "type" = VStr "number") as Ht.
    { assert (get_prop out "type" = get_prop data "type") as Hk.
      { apply (parse_shape_keeps (shape numberFieldSchema) data out "type"
                 (z_literal (VStr "number")));
          [by_compute | done | reflexivity | auto with passes]. }
      unfold prop in *. by rewrite Hk. }
    rewrite (parse_wrong_tag textFieldSchema "text") by (tag_entry || by rewrite Ht).
    unfold parse. by rewrite Hout.
Qed.

Lemma referenceableFieldSchema_idem v r :
  referenceableFieldSchema v = Some r → referenceableFieldSchema r = Some r.
Proof. apply (referenceableFieldSchema_idem_upto (S (height v))). lia. Qed.

(** The runtime parses the ISO string of the date that [d] is coerced
    to back to a date with the same ISO string, as [Date.parse] is
    specified to do for what [toISOString] produces. *)
Definition iso_round_trip (d : value) : Prop :=
  ∀ t, newDate d = Some t →
       ∃ t', newDate (VStr (toISOString t)) = Some t' ∧ toISOString t' = toISOString t.

Lemma date_default_idem d r :
  iso_round_trip d →
  z_optional (z_union [z_literal (VStr "now");
                       z_transform z_coerce_date date_toISOString]) d = Some r →
  z_optional (z_union [z_literal (VStr "now");
                       z_transform z_coerce_date date_toISOString]) r = Some r.
Proof.
  intros Hd. rewrite !date_default_parse.
  destruct (is_undefined d) eqn:Hu; [by intros [= <-]|].
  destruct (strict_equals d (VStr "now")) eqn:Hnow.
  { intros [= <-]. by rewrite Hu, Hnow. }
  destruct (newDate d) as [t|] eqn:Ht; simpl; [|done]. intros [= <-]. simpl.
  destruct (bool_decide _); [done|].
  destruct (Hd t Ht) as (t' & Ht' & Hiso). rewrite Ht'. simpl. by rewrite Hiso.
Qed.

Lemma fieldSchema_idem_aux data r :
  fieldSchema (VObj data) = Some r →
  (prop data "type" = VStr "date" → iso_round_trip (prop data "default")) →
  fieldSchema r = Some r.
Proof.
  intros (o & tag & ? & out & Ho & [= <-] & -> & Ht & Hsh)%fieldSchema_Some_inv Hdate.
  pose proof (tagged_schemas_NoDup _ _ Ho) as Hnd.
  assert (get_prop out "type" = get_prop data "type") as Hk.
  { destruct (get_prop (shape o) "type") as [s|] eqn:Hs.
    - apply (parse_shape_keeps (shape o) data out "type" s); [done..|].
      pose proof (get_prop_elem_of _ _ _ Hnd (tagged_schemas_type _ _ Ho)) as Hs'.
      rewrite Hs in Hs'. injection Hs' as ->. auto with passes.
    - pose proof (get_prop_elem_of _ _ _ Hnd (tagged_schemas_type _ _ Ho)). congruence. }
  assert (prop out "type" = VStr tag) as Ht' by (unfold prop in *; by rewrite Hk).
  rewrite (fieldSchema_dispatch_aux o tag out Ho Ht'). unfold parse.
  rewrite (parse_shape_idem _ data); [done..|].
  assert (∀ w w', height w < height (VObj data) - 1 →
            referenceableFieldSchema w = Some w' → referenceableFieldSchema w' = Some w')
    as Href by (intros w w' _; apply referenceableFieldSchema_idem).
  unfold tagged_schemas, numberFieldSchema, textFieldSchema in Ho.
  repeat (apply elem_of_cons in Ho as [[= -> ->]|Ho];
    [ first [ rewrite shape_booleanFieldSchema | rewrite shape_numberFieldSchemaF
            | rewrite shape_textFieldSchemaF | rewrite shape_dateFieldSchema
            | rewrite shape_jsonFieldSchema ];
      first [ idem_entries Href
            | apply Forall_app; split;
              repeat (apply Forall_cons; split;
                [ intros r0; simpl;
                  first [ solve [apply passes_idem; auto with passes]
                        | apply date_default_idem; by apply Hdate ] |]);
              apply Forall_nil_2 ] |]).
  by apply elem_of_nil in Ho.
Qed.

(** X4.  Validation is idempotent on fields: the field that the field
    schema returns is accepted by the field schema and parsed into
    itself.  For a date field this needs the runtime to parse the ISO
    string of the default back to the same date. *)
Theorem fieldSchema_idempotent v r :
  fieldSchema v = Some r →
  (∀ data, v = VObj data → prop data "type" = VStr "date" →
           iso_round_trip (prop data "default")) →
  fieldSchema r = Some r.
Proof.
  intros Hr Hdate.
  destruct (fieldSchema_inv v (mk_is_Some _ _ Hr)) as (data & tag & -> & _).
  apply (fieldSchema_idem_aux data r Hr). by apply Hdate.
Qed.

End WithRuntime.
End FieldFacts.

(** ** Records, indexes and foreign keys *)

Module CollectionFacts.
Import JS Zod Types PropsFacts ZodFacts SchemaFacts FieldFacts.

Lemma mapM_keys_inv (g : string → option value) ks (out : list (string * value)) :
  mapM (λ k, r ← g k; Some (k, r)) ks = Some out →
  keys out = ks ∧ ∀ k, k ∈ ks → get_prop out k = g k.
Proof.
  unfold keys. revert out. induction ks as [|k0 ks IH]; intros out; csimpl.
  { intros [= <-]. split; [done|]. by intros k ?%elem_of_nil. }
  destruct (g k0) as [r|] eqn:Hr; csimpl; [|done].
  destruct (mapM _ ks) as [out'|]; csimpl; [|done].
  intros [= <-]. destruct (IH out' eq_refl) as [Hkeys Hget]. csimpl.
  split; [by rewrite Hkeys|]. intros k Hk.
  case_decide as Hkk; [by subst|].
  apply Hget. by apply elem_of_cons in Hk as [?|?].
Qed.

Lemma z_record_Some_inv (s : schema) data out :
  z_record s (VObj data) = Some (VObj out) →
  keys out = keys data ∧ ∀ k, k ∈ keys data → get_prop out k = s (prop data k).
Proof.
  unfold z_record. destruct (mapM _ _) as [out'|] eqn:Hm; simpl; [|done].
  intros [= <-]. by apply mapM_keys_inv.
Qed.

Section WithRuntime.
Context `{DateRuntime}.

Implicit Types (v r : value) (data out : list (string * value)) (k : string).


(** *** Indexes *)

(** A string or an array of strings. *)
Definition string_or_strings v : Prop :=
  (∃ x, v = VStr x) ∨ (∃ xs, v = VArr xs ∧ Forall (λ x, ∃ y, x = VStr y) xs).

Lemma z_string_is_Some v : is_Some (z_string v) ↔ ∃ x, v = VStr x.
Proof.
  destruct v; simpl; split; try (by intros [? ?]); eauto.
Qed.

Lemma string_or_strings_is_Some v :
  is_Some (z_or z_string (z_array z_string) v) ↔ string_or_strings v.
Proof.
  unfold z_or, string_or_strings.
  rewrite z_union_is_Some, !Exists_cons, Exists_nil, z_string_is_Some, z_array_is_Some.
  split.
  - intros [?|[(xs & -> & Hxs)|[]]]; [by left | right].
    exists xs. split; [done|]. eapply Forall_impl; [done|].
    intros x. by rewrite z_string_is_Some.
  - intros [?|(xs & -> & Hxs)]; [by left | right; left].
    exists xs. split; [done|]. eapply Forall_impl; [done|].
    intros x. by rewrite z_string_is_Some.
Qed.

Lemma optional_boolean_is_Some v :
  is_Some (z_optional z_boolean v) ↔ v = VUndefined ∨ ∃ b, v = VBool b.
Proof.
  destruct v; simpl; split; eauto; try (by intros [? ?]);
    intros [?|[? ?]]; done.
Qed.

Lemma indexSchema_is_Some v :
  is_Some (parse indexSchema v) ↔
  ∃ i, v = VObj i ∧ string_or_strings (prop i "on")
       ∧ (prop i "unique" = VUndefined ∨ ∃ b, prop i "unique" = VBool b).
Proof.
  rewrite parse_is_Some. f_equiv; intros i. unfold indexSchema. simpl.
  rewrite !Forall_cons, Forall_nil. simpl.
  rewrite string_or_strings_is_Some, optional_boolean_is_Some. tauto.
Qed.

Lemma collectionSchema_bad_index data idx name ix :
  get_prop data "indexes" = Some (VObj idx) →
  get_prop idx name = Some ix →
  parse indexSchema ix = None →
  collectionSchema (VObj data) = None.
Proof.
  intros Hi Hname Hbad. apply eq_None_not_Some.
  intros (? & [= <-] & (_ & Hidx & _) & _)%collectionSchema_is_Some.
  rewrite (prop_Some _ _ _ Hi) in Hidx. simpl in Hidx.
  change (is_Some (z_record (parse indexSchema) (VObj idx))) in Hidx.
  apply z_record_is_Some in Hidx as (? & [= <-] & Hall).
  specialize (Hall name). rewrite (prop_Some _ _ _ Hname), Hbad in Hall.
  destruct Hall as [? ?]; [|done]. apply get_prop_is_Some. by rewrite Hname.
Qed.

(** X6.  The indexes of a collection are validated: an index is accepted
    exactly when it is an object whose [on] is a string or an array of
    strings and whose [unique], if given, is a boolean; a collection
    with an index that is not (one without [on], say) is rejected, and
    so is a collection whose [indexes] is given and is not an object. *)
Theorem collection_indexes_checked data :
  (∀ v, is_Some (parse indexSchema v) ↔
        ∃ i, v = VObj i ∧ string_or_strings (prop i "on")
             ∧ (prop i "unique" = VUndefined ∨ ∃ b, prop i "unique" = VBool b))
  ∧ (∀ idx name ix,
       get_prop data "indexes" = Some (VObj idx) →
       get_prop idx name = Some ix →
       parse indexSchema ix = None →
       collectionSchema (VObj data) = None)
  ∧ (∀ v, get_prop data "indexes" = Some v → v ≠ VUndefined →
          (∀ idx, v ≠ VObj idx) → collectionSchema (VObj data) = None).
Proof.
  split_and!; [apply indexSchema_is_Some | apply collectionSchema_bad_index |].
  intros v Hi Hu Hobj. apply eq_None_not_Some.
  intros (? & [= <-] & (_ & Hidx & _) & _)%collectionSchema_is_Some.
  rewrite (prop_Some _ _ _ Hi) in Hidx.
  destruct v; simpl in Hidx; try (by destruct Hidx). by eapply Hobj.
Qed.

(** *** Foreign keys *)

Lemma shape_foreignKeysSchema :
  shape foreignKeysSchema = [
    ("fields", z_or z_string (z_array z_string));
    ("references", z_function_returns
       (z_lazy (λ _, z_or referenceableFieldSchema (z_array referenceableFieldSchema)))) ].
Proof. reflexivity. Qed.

Lemma function_returns_is_Some (ret : schema) v :
  is_Some (z_function_returns ret v) ↔ ∃ result, v = VFun result.
Proof.
  destruct v; simpl; split; try (by intros [? ?]); eauto.
Qed.

Lemma foreignKeysSchema_is_Some v :
  is_Some (parse foreignKeysSchema v) ↔
  ∃ fk, v = VObj fk ∧ string_or_strings (prop fk "fields")
        ∧ ∃ result, prop fk "references" = VFun result.
Proof.
  rewrite parse_is_Some. f_equiv; intros fk. rewrite shape_foreignKeysSchema.
  rewrite !Forall_cons, Forall_nil. simpl.
  rewrite string_or_strings_is_Some, function_returns_is_Some. tauto.
Qed.

Lemma foreignKeysSchema_references fk out :
  parse foreignKeysSchema (VObj fk) = Some (VObj out) →
  ∃ result, prop fk "references" = VFun result
    ∧ get_prop out "references" =
        Some (VFun (result ≫=
                    z_or referenceableFieldSchema (z_array referenceableFieldSchema))).
Proof.
  intros Hp.
  destruct (proj1 (foreignKeysSchema_is_Some _) (mk_is_Some _ _ Hp))
    as (? & [= <-] & _ & result & Hres).
  apply parse_Some_inv in Hp as (? & ? & [= <-] & [= <-] & Hsh).
  exists result. split; [done|].
  assert (NoDup (keys (shape foreignKeysSchema))) as Hnd by by_compute.
  rewrite (parse_shape_get _ _ _ "references" Hnd Hsh).
  rewrite shape_foreignKeysSchema. simpl. rewrite Hres. simpl.
  by rewrite orb_true_r.
Qed.

Lemma collectionSchema_bad_foreignKey data fks fk :
  get_prop data "foreignKeys" = Some (VArr fks) →
  fk ∈ fks →
  parse foreignKeysSchema fk = None →
  collectionSchema (VObj data) = None.
Proof.
  intros Hf Hin Hbad. apply eq_None_not_Some.
  intros (? & [= <-] & (_ & _ & Hfks & _) & _)%collectionSchema_is_Some.
  rewrite (prop_Some _ _ _ Hf) in Hfks. simpl in Hfks.
  change (is_Some (z_array (parse foreignKeysSchema) (VArr fks))) in Hfks.
  apply z_array_is_Some in Hfks as (? & [= <-] & Hall).
  rewrite Forall_forall in Hall. specialize (Hall _ Hin).
  rewrite Hbad in Hall. by destruct Hall.
Qed.

(** X7.  The foreign keys of a collection are validated: a foreign key
    is accepted exactly when it is an object whose [fields] is a string
    or an array of strings and whose [references] is a function (it is
    not optional); the parsed [references] returns what the function
    returns only if that is a text or number field or an array of such
    fields, and throws otherwise; a collection with a foreign key that is
    not accepted is rejected. *)
Theorem collection_foreignKeys_checked data :
  (∀ v, is_Some (parse foreignKeysSchema v) ↔
        ∃ fk, v = VObj fk ∧ string_or_strings (prop fk "fields")
              ∧ ∃ result, prop fk "references" = VFun result)
  ∧ (∀ fk out, parse foreignKeysSchema (VObj fk) = Some (VObj out) →
       ∃ result parsed, prop fk "references" = VFun result
         ∧ get_prop out "references" = Some (VFun parsed)
         ∧ (is_Some parsed ↔
            ∃ w, result = Some w
                 ∧ (is_Some (referenceableFieldSchema w)
                    ∨ ∃ ws, w = VArr ws
                            ∧ Forall (λ x, is_Some (referenceableFieldSchema x)) ws)))
  ∧ (∀ fks fk,
       get_prop data "foreignKeys" = Some (VArr fks) →
       fk ∈ fks →
       parse foreignKeysSchema fk = None →
       collectionSchema (VObj data) = None).
Proof.
  split_and!; [apply foreignKeysSchema_is_Some | | apply collectionSchema_bad_foreignKey].
  intros fk out (result & Hres & Hout)%foreignKeysSchema_references.
  eexists result, _. split_and!; [done..|].
  destruct result as [w|]; simpl.
  - unfold z_or. rewrite z_union_is_Some, !Exists_cons, Exists_nil, z_array_is_Some.
    split.
    + intros [?|[?|[]]]; exists w; eauto.
    + intros (? & [= <-] & [?|?]); eauto.
  - split; [by intros [? ?] | by intros (? & ? & _)].
Qed.

(** *** Parsing a parsed collection *)

Lemma mapM_keys_replay (g g' : string → option value) ks (out : list (string * value)) :
  mapM (λ k, r ← g k; Some (k, r)) ks = Some out →
  (∀ k r, k ∈ ks → g k = Some r → g' k = Some r) →
  mapM (λ k, r ← g' k; Some (k, r)) ks = Some out.
Proof.
  rewrite !mapM_Some. intros HF.
  induction HF as [|k0 y ks out Hy _ IH]; intros Hsame; constructor.
  - destruct (g k0) as [r|] eqn:Hr; [|done]. simpl in Hy.
    by rewrite (Hsame k0 r) by (done || left).
  - apply IH. intros k r Hk. apply Hsame. by right.
Qed.

Lemma z_record_idem (s : schema) data out :
  z_record s (VObj data) = Some (VObj out) →
  (∀ k r, k ∈ keys data → s (prop data k) = Some r → s r = Some r) →
  z_record s (VObj out) = Some (VObj out).
Proof.
  intros Hp Hidem. destruct (z_record_Some_inv _ _ _ Hp) as [Hkeys Hget].
  unfold z_record in *. destruct (mapM _ (keys data)) as [out'|] eqn:Hm; [|done].
  injection Hp as ->. rewrite Hkeys.
  rewrite (mapM_keys_replay _ (λ k, s (prop out k)) _ _ Hm); [done|].
  intros k r Hk Hr. rewrite (prop_Some out k r) by by rewrite Hget.
  by apply (Hidem k).
Qed.

Lemma mapM_idem (s : schema) xs ys :
  mapM s xs = Some ys →
  (∀ x r, x ∈ xs → s x = Some r → s r = Some r) →
  mapM s ys = Some ys.
Proof.
  rewrite !mapM_Some. intros HF.
  induction HF as [|x y xs ys Hy _ IH]; intros Hidem; constructor.
  - apply (Hidem x); [left | done].
  - apply IH. intros x' r Hx'. apply Hidem. by right.
Qed.

Lemma z_array_idem (s : schema) xs r :
  z_array s (VArr xs) = Some r →
  (∀ x r, x ∈ xs → s x = Some r → s r = Some r) →
  z_array s r = Some r.
Proof.
  unfold z_array. destruct (mapM s xs) as [ys|] eqn:Hm; [|done].
  intros [= <-] Hidem. by rewrite (mapM_idem s xs ys).
Qed.

Lemma passes_mapM (s : schema) xs ys : passes s → mapM s xs = Some ys → ys = xs.
Proof.
  intros Hs. rewrite mapM_Some. intros HF.
  induction HF as [|x y xs ys Hy _ IH]; [done|].
  by rewrite (Hs _ _ Hy), IH.
Qed.

Lemma passes_string_or_strings : passes (z_or z_string (z_array z_string)).
Proof.
  intros v r (s & Hs & Hr)%z_union_Some.
  apply elem_of_cons in Hs as [->|Hs]; [by apply passes_string in Hr|].
  apply elem_of_cons in Hs as [->|Hs]; [|by apply elem_of_nil in Hs].
  destruct v as [| | | | | |xs| |]; try done. simpl in Hr.
  destruct (mapM z_string xs) as [ys|] eqn:Hm; [|done]. injection Hr as <-.
  by rewrite (passes_mapM _ _ _ passes_string Hm).
Qed.

Lemma passes_function : passes z_function.
Proof.
  intros [| | | | | | | |[?|]] r; unfold z_function, z_function_returns, z_unknown;
    simpl; congruence.
Qed.

Lemma passes_any : passes z_any.
Proof. intros v r. unfold z_any. congruence. Qed.

Lemma indexSchema_idem v r : parse indexSchema v = Some r → parse indexSchema r = Some r.
Proof.
  intros (i & out & -> & -> & Hsh)%parse_Some_inv. unfold parse.
  rewrite (parse_shape_idem _ i); [done | by_compute | done |].
  repeat (apply Forall_cons; split; [intros r0; simpl; apply passes_idem|]);
    [apply passes_string_or_strings | apply passes_optional, passes_boolean
    | apply Forall_nil_2].
Qed.

Lemma referenceableFieldSchema_array (xs : list value) :
  referenceableFieldSchema (VArr xs) = None.
Proof. by rewrite referenceableFieldSchema_unfold. Qed.

Lemma foreignKey_references_idem w w' :
  z_or referenceableFieldSchema (z_array referenceableFieldSchema) w = Some w' →
  z_or referenceableFieldSchema (z_array referenceableFieldSchema) w' = Some w'.
Proof.
  unfold z_or. cbn [z_union].
  destruct (referenceableFieldSchema w) as [r|] eqn:Hr.
  - intros [= <-]. by rewrite (referenceableFieldSchema_idem _ _ Hr).
  - destruct w as [| | | | | |xs| |]; try done.
    destruct (z_array referenceableFieldSchema (VArr xs)) as [r|] eqn:Ha; [|done].
    intros [= <-].
    assert (z_array referenceableFieldSchema r = Some r) as Hidem.
    { apply (z_array_idem _ xs); [done|].
      intros x r' _. apply referenceableFieldSchema_idem. }
    unfold z_array in Ha. destruct (mapM _ xs); [|done]. injection Ha as <-.
    by rewrite referenceableFieldSchema_array, Hidem.
Qed.

Lemma foreignKeysSchema_idem v r :
  parse foreignKeysSchema v = Some r → parse foreignKeysSchema r = Some r.
Proof.
  intros (fk & out & -> & -> & Hsh)%parse_Some_inv. unfold parse.
  rewrite (parse_shape_idem _ fk); [done | by_compute | done |].
  rewrite shape_foreignKeysSchema.
  apply Forall_cons; split; [intros r0; simpl; apply passes_idem,
                               passes_string_or_strings|].
  apply Forall_cons; split; [|apply Forall_nil_2]. intros r0. simpl.
  destruct (prop fk "references") as [| | | | | | | |[w|]]; simpl; try done;
    intros [= <-]; simpl; [|done]. unfold z_lazy.
  destruct (z_or _ _ w) as [w'|] eqn:Hw; simpl; [|done].
  by rewrite (foreignKey_references_idem _ _ Hw).
Qed.

Lemma optional_idem (s : schema) v r :
  (∀ r, s v = Some r → s r = Some r) →
  z_optional s v = Some r → z_optional s r = Some r.
Proof.
  intros Hs. destruct v; simpl; try (intros [= <-]; done);
    intros Hr; pose proof (Hs _ Hr) as Hr'; destruct r; simpl; done.
Qed.

(** The date fields of a collection have defaults that the runtime
    parses back from their ISO strings. *)
Definition dates_round_trip (data : list (string * value)) : Prop :=
  ∀ fields k f,
    get_prop data "fields" = Some (VObj fields) →
    get_prop fields k = Some (VObj f) →
    prop f "type" = VStr "date" →
    iso_round_trip (prop f "default").

Lemma fieldsSchema_idem data r :
  dates_round_trip data →
  fieldsSchema (prop data "fields") = Some r → fieldsSchema r = Some r.
Proof.
  intros Hdates Hr. unfold fieldsSchema in *.
  destruct (proj1 (z_record_is_Some _ _) (mk_is_Some _ _ Hr)) as (fields & Hf & _).
  rewrite Hf in Hr.
  assert (get_prop data "fields" = Some (VObj fields)) as Hget.
  { unfold prop in Hf. by destruct (get_prop data "fields"); simplify_eq/=. }
  destruct r as [| | | | | | |out|];
    try (unfold z_record in Hr; by destruct (mapM _ _)).
  apply (z_record_idem _ fields); [done|].
  intros k r Hk Hp.
  apply get_prop_is_Some in Hk as [v Hv]. rewrite (prop_Some _ _ _ Hv) in Hp.
  destruct (fieldSchema_inv v (mk_is_Some _ _ Hp)) as (f & tag & -> & _).
  apply (fieldSchema_idem_aux f r Hp). by apply (Hdates fields k f).
Qed.

Lemma collection_branch_idem (b : bool) data out :
  dates_round_trip data →
  parse_shape (shape (extend baseCollectionSchema [("writable", z_literal (VBool b))])) data
    = Some out →
  parse_shape (shape (extend baseCollectionSchema [("writable", z_literal (VBool b))])) out
    = Some out.
Proof.
  intros Hdates Hsh. apply (parse_shape_idem _ data); [by_compute | done |].
  rewrite shape_collectionSchema.
  repeat (apply Forall_cons; split; [intros r0; simpl|]); [..|apply Forall_nil_2].
  - by apply fieldsSchema_idem.
  - apply optional_idem. intros r1 Hr1.
    destruct (proj1 (z_record_is_Some _ _) (mk_is_Some _ _ Hr1)) as (idx & Hi & _).
    rewrite Hi in Hr1.
    destruct r1 as [| | | | | | |out1|];
      try (unfold z_record in Hr1; by destruct (mapM _ _)).
    apply (z_record_idem _ idx); [done|]. intros k r _. apply indexSchema_idem.
  - apply optional_idem. intros r1 Hr1.
    destruct (proj1 (z_array_is_Some _ _) (mk_is_Some _ _ Hr1)) as (fks & Hf & _).
    rewrite Hf in Hr1. apply (z_array_idem _ fks); [done|].
    intros x r _. apply foreignKeysSchema_idem.
  - apply passes_idem, passes_any.
  - apply passes_idem, passes_optional, passes_function.
  - apply passes_idem, passes_literal.
Qed.

(** X17.  Validation is idempotent on collections: the collection that
    the collection schema returns is accepted by the collection schema
    and parsed into itself, provided the runtime parses the ISO strings
    of the defaults of its date fields back to the same dates. *)
Theorem collectionSchema_idempotent v r :
  collectionSchema v = Some r →
  (∀ data, v = VObj data → dates_round_trip data) →
  collectionSchema r = Some r.
Proof.
  intros Hr Hdates.
  destruct (collectionSchema_inv v (mk_is_Some _ _ Hr)) as (data & _ & _ & -> & _).
  specialize (Hdates data eq_refl).
  unfold collectionSchema, readableCollectionSchema, writableCollectionSchema in *.
  cbn [z_union] in *.
  destruct (parse (extend baseCollectionSchema [("writable", z_literal (VBool false))])
              (VObj data)) as [r'|] eqn:Hread.
  - injection Hr as ->.
    apply parse_Some_inv in Hread as (? & out & [= <-] & -> & Hsh).
    unfold parse at 1. by rewrite (collection_branch_idem false data out).
  - destruct (parse (extend baseCollectionSchema [("writable", z_literal (VBool true))])
                (VObj data)) as [r'|] eqn:Hwrite; [|done].
    injection Hr as ->.
    assert (prop data "writable" = VBool true) as Hw.
    { destruct (proj1 (parse_collection_is_Some true _) (mk_is_Some _ _ Hwrite))
        as (? & [= <-] & _ & ?). done. }
    apply parse_Some_inv in Hwrite as (? & out & [= <-] & -> & Hsh).
    assert (get_prop out "writable" = get_prop data "writable") as Hk.
    { rewrite shape_collectionSchema in Hsh.
      eapply (parse_shape_keeps _ _ _ _ (z_literal (VBool true))); [|done|reflexivity|].
      - by_compute.
      - apply passes_literal. }
    assert (parse (extend baseCollectionSchema [("writable", z_literal (VBool false))])
              (VObj out) = None) as ->.
    { apply eq_None_not_Some.
      intros (? & [= <-] & _ & Hf)%parse_collection_is_Some.
      unfold prop in *. rewrite Hk in Hf. congruence. }
    unfold parse. by rewrite (collection_branch_idem true data out).
Qed.

End WithRuntime.
End CollectionFacts.

(** ** The constructors and [defineCollection] under validation *)

Module ConstructorFacts.
Import JS Zod Types PropsFacts ZodFacts SchemaFacts ConfigFacts FieldFacts.

(** *** Spreading into an object that has none of the keys *)

Lemma set_prop_fresh {V} k (v : V) o : k ∉ keys o → set_prop k v o = (o ++ [(k, v)])%list.
Proof.
  unfold keys. induction o as [|[k' v'] o IH]; csimpl; [done|].
  intros [Hne Hk]%not_elem_of_cons. rewrite decide_False by done. by rewrite IH.
Qed.

Lemma spread_fresh {V} (target source : list (string * V)) :
  NoDup (keys source) →
  (∀ k, k ∈ keys source → k ∉ keys target) →
  spread target source = (target ++ source)%list.
Proof.
  unfold spread, keys. revert target.
  induction source as [|[k v] source IH]; intros target; csimpl.
  { intros _ _. by rewrite app_nil_r. }
  rewrite NoDup_cons. intros [Hk Hnd] Hfresh.
  rewrite set_prop_fresh by (apply Hfresh; left).
  rewrite IH; [by rewrite <-app_assoc | done |].
  intros k' Hk'. unfold keys. rewrite fmap_app, elem_of_app. csimpl.
  intros [Hin|Hin%list_elem_of_singleton].
  - by apply (Hfresh k'); [right|].
  - by subst.
Qed.

Lemma spread_nil {V} (source : list (string * V)) :
  NoDup (keys source) → spread [] source = source.
Proof.
  intros Hnd. rewrite spread_fresh; [done..|]. intros k _. apply not_elem_of_nil.
Qed.

Lemma set_prop_set_prop {V} k (v v' : V) o :
  set_prop k v (set_prop k v' o) = set_prop k v o.
Proof.
  induction o as [|[k0 v0] o IH]; simpl.
  - by rewrite decide_True.
  - case_decide; simpl.
    + by rewrite decide_True.
    + rewrite decide_False by done. by rewrite IH.
Qed.

Section WithRuntime.
Context `{DateRuntime}.

Implicit Types (opts bare result cfg : list (string * value)) (k : string).

(** An object that overrides properties of an accepted object is
    accepted exactly when the properties it overrides are. *)
Lemma parse_overrides_is_Some (o : ZodObject) bare opts result :
  (∀ k, get_prop result k =
        match get_prop opts k with Some v => Some v | None => get_prop bare k end) →
  is_Some (parse o (VObj bare)) →
  is_Some (parse o (VObj result)) ↔
  ∀ k s, (k, s) ∈ shape o → is_Some (get_prop opts k) → is_Some (s (prop opts k)).
Proof.
  intros Hres. rewrite !parse_obj_is_Some, !Forall_forall. intros Hbare.
  assert (∀ k, prop result k =
                 match get_prop opts k with Some _ => prop opts k | None => prop bare k end)
    as Hprop.
  { intros k. unfold prop. rewrite Hres. by destruct (get_prop opts k). }
  split.
  - intros Hall k s Hin [v Hv]. specialize (Hall _ Hin). simpl in Hall.
    by rewrite Hprop, Hv in Hall.
  - intros Hopts [k s] Hin. simpl. rewrite Hprop.
    destruct (get_prop opts k) as [v|] eqn:Hv.
    + apply Hopts; [done|]. rewrite Hv. eauto.
    + apply (Hbare _ Hin).
Qed.

(** The constructors of [config.ts] with the schema and tag of each. *)
Definition config_constructors
  : list ((option (list (string * value)) → list (string * value)) * ZodObject * string) := [
  (Config.field.number, numberFieldSchema, "number");
  (Config.field.boolean, booleanFieldSchema, "boolean");
  (Config.field.text, textFieldSchema, "text");
  (Config.field.date, dateFieldSchema, "date");
  (Config.field.json, jsonFieldSchema, "json")
].

(** Those of [part_000]. *)
Definition part_constructors
  : list ((option (list (string * value)) → list (string * value)) * ZodObject * string) := [
  (Constructors.field.number, numberFieldSchema, "number");
  (Constructors.field.boolean, booleanFieldSchema, "boolean");
  (Constructors.field.text, textFieldSchema, "text");
  (Constructors.field.date, dateFieldSchema, "date");
  (Constructors.field.json, jsonFieldSchema, "json")
].

Lemma constructor_tagged constructor o tag :
  (constructor, o, tag) ∈ config_constructors ∨ (constructor, o, tag) ∈ part_constructors →
  (o, tag) ∈ tagged_schemas.
Proof.
  unfold config_constructors, part_constructors, tagged_schemas.
  intros [Hin|Hin];
    repeat (apply elem_of_cons in Hin as [[= -> -> ->]|Hin];
      [repeat first [by left | right]|]);
    by apply elem_of_nil in Hin.
Qed.

(** What a constructor returns, key by key, and that its field without
    options is accepted. *)
Lemma constructor_get constructor o tag opts :
  (constructor, o, tag) ∈ config_constructors ∨ (constructor, o, tag) ∈ part_constructors →
  NoDup (keys opts) →
  (∀ k, get_prop (constructor (Some opts)) k =
        match get_prop opts k with
        | Some v => Some v
        | None => get_prop (constructor None) k
        end)
  ∧ get_prop (constructor None) "type" = Some (VStr tag)
  ∧ is_Some (parse o (VObj (constructor None))).
Proof.
  unfold config_constructors, part_constructors. intros [Hin|Hin] Hnd;
    repeat (apply elem_of_cons in Hin as [[= -> -> ->]|Hin];
      [ split_and!; [| reflexivity | eexists; vm_compute; reflexivity];
        intros k;
        unfold Config.field.number, Config.field.boolean, Config.field.text,
          Config.field.date, Config.field.json,
          Constructors.field.number, Constructors.field.boolean,
          Constructors.field.text, Constructors.field.date, Constructors.field.json;
        first [ rewrite !field_constructor_get | rewrite !get_prop_spread ];
        cbn [from_option id reverse]; rewrite get_prop_reverse by done;
        by destruct (get_prop opts k) |]);
    by apply elem_of_nil in Hin.
Qed.

(** X8.  A field built by a constructor of [config.ts] from options
    without a [type] is rejected by the field schema only because of an
    option that was given: it is accepted exactly when the schema of
    every given key accepts the given value, and the field built without
    options is always accepted.  The defaults never cause a rejection. *)
Theorem constructed_field_validity constructor o tag opts :
  (constructor, o, tag) ∈ config_constructors →
  NoDup (keys opts) →
  get_prop opts "type" = None →
  is_Some (fieldSchema (VObj (constructor None)))
  ∧ (is_Some (fieldSchema (VObj (constructor (Some opts)))) ↔
     ∀ k s, (k, s) ∈ shape o → is_Some (get_prop opts k) → is_Some (s (prop opts k))).
Proof.
  intros Hin Hnd Htype.
  pose proof (constructor_tagged _ _ _ (or_introl Hin)) as Ho.
  destruct (constructor_get _ _ _ opts (or_introl Hin) Hnd) as (Hget & Hbare & Hok).
  split.
  - by rewrite (fieldSchema_dispatch_aux o tag) by (done || by apply prop_Some).
  - rewrite (fieldSchema_dispatch_aux o tag);
      [apply (parse_overrides_is_Some o (constructor None) opts _ Hget Hok)|done|].
    apply prop_Some. by rewrite Hget, Htype.
Qed.


(** *** [defineCollection] of [config.ts] *)

Lemma collectionSchema_writable data out :
  collectionSchema (VObj data) = Some (VObj out) →
  get_prop out "writable" = get_prop data "writable".
Proof.
  intros (s & Hs & Hp)%z_union_Some.
  assert (∃ b : bool, s = parse (extend baseCollectionSchema
                                   [("writable", z_literal (VBool b))])) as [b ->].
  { apply elem_of_cons in Hs as [->|Hs]; [by exists false|].
    apply elem_of_cons in Hs as [->|Hs]; [by exists true|].
    by apply elem_of_nil in Hs. }
  apply parse_Some_inv in Hp as (? & ? & [= <-] & [= <-] & Hsh).
  rewrite shape_collectionSchema in Hsh.
  eapply (parse_shape_keeps _ _ _ _ (z_literal (VBool b))); [|done|reflexivity|].
  - by_compute.
  - apply passes_literal.
Qed.

(** X10.  A collection built by [defineCollection] or
    [defineWritableCollection] of [config.ts] always carries the
    [writable] that the collection schema wants: it is accepted exactly
    when the configuration it was built from has valid [fields], and
    valid [indexes], [foreignKeys] and [_setMeta] if any, and the parsed
    collection keeps the tag of the function that built it. *)
Theorem defined_collection_validity define (b : bool) cfg :
  (define, b) ∈ [(Config.defineCollection, false); (Config.defineWritableCollection, true)] →
  NoDup (keys cfg) →
  (is_Some (collectionSchema (VObj (define cfg))) ↔
     is_Some (fieldsSchema (prop cfg "fields"))
     ∧ is_Some (z_optional (z_record (parse indexSchema)) (prop cfg "indexes"))
     ∧ is_Some (z_optional (z_array (parse foreignKeysSchema)) (prop cfg "foreignKeys"))
     ∧ is_Some (z_optional z_function (prop cfg "_setMeta")))
  ∧ ∀ out, collectionSchema (VObj (define cfg)) = Some (VObj out) →
           get_prop out "writable" = Some (VBool b).
Proof.
  intros Hdef Hnd.
  assert (define cfg = set_prop "writable" (VBool b) cfg) as ->.
  { apply elem_of_cons in Hdef as [[= -> ->]|Hdef].
    { unfold Config.defineCollection. by rewrite spread_nil. }
    apply elem_of_cons in Hdef as [[= -> ->]|Hdef].
    { unfold Config.defineWritableCollection. by rewrite spread_nil. }
    by apply elem_of_nil in Hdef. }
  assert (∀ k, k ≠ "writable" → prop (set_prop "writable" (VBool b) cfg) k = prop cfg k)
    as Hsame.
  { intros k Hk. unfold prop. by rewrite get_prop_set_ne. }
  split.
  - rewrite collectionSchema_is_Some. unfold collection_body_ok. split.
    + intros (? & [= <-] & Hbody & _). by rewrite !Hsame in Hbody.
    + intros Hbody. eexists. split; [done|]. rewrite !Hsame by done.
      split; [done|]. exists b. unfold prop. by rewrite get_prop_set_eq.
  - intros out ->%collectionSchema_writable. apply get_prop_set_eq.
Qed.

(** X11.  Of two applications of [defineCollection] and
    [defineWritableCollection] of [config.ts] the outer one decides
    [writable] and nothing else changes: each function is idempotent,
    and each undoes the tag of the other. *)
Theorem define_last_tag_wins cfg :
  NoDup (keys cfg) →
  Config.defineCollection (Config.defineCollection cfg) = Config.defineCollection cfg
  ∧ Config.defineWritableCollection (Config.defineWritableCollection cfg)
    = Config.defineWritableCollection cfg
  ∧ Config.defineCollection (Config.defineWritableCollection cfg)
    = Config.defineCollection cfg
  ∧ Config.defineWritableCollection (Config.defineCollection cfg)
    = Config.defineWritableCollection cfg.
Proof.
  intros Hnd. unfold Config.defineCollection, Config.defineWritableCollection.
  rewrite (spread_nil cfg) by done.
  rewrite !spread_nil by by apply NoDup_keys_set_prop.
  by rewrite !set_prop_set_prop.
Qed.

End WithRuntime.
End ConstructorFacts.

(** ** The store under [baseDefineCollection] and [_setMeta] *)

Module StoreFacts.
Import JS Define PropsFacts DefineFacts.

Section WithTable.
Context {Table : Type} (getTableName : Table → string).

Implicit Types (σ : store Table) (l field meta : loc) (k : string) (v : value)
  (fields : list (string * loc)) (userConfig : list (string * uvalue)).

Lemma visit_app fields k f ks1 ks2 σ :
  visit fields k f (ks1 ++ ks2) σ = visit fields k f ks2 (visit fields k f ks1 σ).
Proof. unfold visit. by rewrite foldl_app. Qed.

(** Visiting keys that do not hold [l] leaves the object at [l] alone. *)
Lemma objects_visit_untouched fields k f ks σ l :
  (∀ x, x ∈ ks → get_prop fields x ≠ Some l) →
  objects (visit fields k f ks σ) !! l = objects σ !! l.
Proof.
  induction ks as [|x ks IH] using rev_ind; intros Hl; [done|].
  rewrite visit_snoc. rewrite <-IH by (intros y Hy; apply Hl, elem_of_app; by left).
  destruct (get_prop fields x) as [l'|] eqn:Hx; [|done].
  rewrite objects_assign_ne; [done|]. intros ->.
  eapply (Hl x); [|done]. apply elem_of_app. right. left.
Qed.

(** The cell of the collection is new, and its accessor reads it. *)
Lemma baseDefineCollection_cell userConfig writable σ :
  get_prop (baseDefineCollection userConfig writable σ).1 "table"
    = Some (CGetTable (fresh (dom (metas σ))))
  ∧ get_prop (baseDefineCollection userConfig writable σ).1 "_setMeta"
    = Some (CSetMeta (fresh (dom (metas σ))) (config_fields userConfig))
  ∧ metas σ !! fresh (dom (metas σ)) = None.
Proof.
  unfold baseDefineCollection. cbn [fst].
  rewrite for_in_fields_visit, metas_visit, !get_prop_spread. split_and!; [done..|].
  apply not_elem_of_dom, is_fresh.
Qed.

(** X12.  [baseDefineCollection] writes nothing into the store but the
    [name] of the fields of the configuration and one new cell for the
    table: it creates and removes no field object, changes no other
    property of any object and no object that is not a field of the
    configuration, and leaves every table binding that exists as it
    is; the cell that the new collection reads is new and holds
    [null]. *)
Theorem baseDefineCollection_frame userConfig writable σ :
  (∀ l, is_Some (objects (baseDefineCollection userConfig writable σ).2 !! l)
        ↔ is_Some (objects σ !! l))
  ∧ (∀ l k, k ≠ "name" →
       field_prop (baseDefineCollection userConfig writable σ).2 l k = field_prop σ l k)
  ∧ (∀ l, (∀ k, get_prop (config_fields userConfig) k ≠ Some l) →
       objects (baseDefineCollection userConfig writable σ).2 !! l = objects σ !! l)
  ∧ (∀ meta, is_Some (metas σ !! meta) →
       metas (baseDefineCollection userConfig writable σ).2 !! meta = metas σ !! meta)
  ∧ ∃ meta, get_prop (baseDefineCollection userConfig writable σ).1 "table"
              = Some (CGetTable meta)
            ∧ metas σ !! meta = None
            ∧ metas (baseDefineCollection userConfig writable σ).2 !! meta = Some TNull.
Proof.
  destruct (baseDefineCollection_cell userConfig writable σ) as (Ht & _ & Hfresh).
  rewrite baseDefineCollection_store. cbn [objects metas]. split_and!.
  - intros l. apply allocated_visit.
  - intros l k Hk. unfold field_prop at 1. cbn [objects].
    by apply (field_prop_visit_ne _ "name").
  - intros l Hl. by apply objects_visit_other.
  - intros meta [? Hm]. rewrite lookup_insert_ne; [done|]. intros <-. congruence.
  - eexists. split_and!; [done..|]. apply lookup_insert_eq.
Qed.

(** X13.  Two collections have separate table bindings: when a
    collection is defined in a store where the cell of an earlier one
    still exists, [_setMeta] on either of them does not change the
    [table] of the other. *)
Theorem collections_bind_separately userConfigA writableA σ userConfigB writableB σ' :
  is_Some (table (baseDefineCollection userConfigA writableA σ).1 σ') →
  ∀ t σ1 σ2,
    (call_setMeta getTableName (baseDefineCollection userConfigB writableB σ').1 t σ1
       = Some σ2 →
     table (baseDefineCollection userConfigA writableA σ).1 σ2
     = table (baseDefineCollection userConfigA writableA σ).1 σ1)
    ∧ (call_setMeta getTableName (baseDefineCollection userConfigA writableA σ).1 t σ1
         = Some σ2 →
       table (baseDefineCollection userConfigB writableB σ').1 σ2
       = table (baseDefineCollection userConfigB writableB σ').1 σ1).
Proof.
  destruct (baseDefineCollection_cell userConfigA writableA σ) as (HtA & HsA & _).
  destruct (baseDefineCollection_cell userConfigB writableB σ') as (HtB & HsB & HfreshB).
  intros HA t σ1 σ2.
  rewrite !(table_getter _ _ _ HtA), !(table_getter _ _ _ HtB) in *.
  destruct HA as [? HA]. unfold call_setMeta. rewrite HsA, HsB.
  assert (fresh (dom (metas σ')) ≠ fresh (dom (metas σ))) as Hne by congruence.
  split; intros [= <-]; unfold _setMeta; rewrite for_in_fields_visit, metas_visit;
    cbn [metas]; by rewrite lookup_insert_ne.
Qed.

(** X14.  When several keys of [fields] hold the same field object, the
    object is named after the last of them in the order of enumeration. *)
Theorem shared_field_gets_last_key userConfig writable σ l ks1 k ks2 :
  is_Some (objects σ !! l) →
  keys (config_fields userConfig) = (ks1 ++ k :: ks2)%list →
  get_prop (config_fields userConfig) k = Some l →
  (∀ k', k' ∈ ks2 → get_prop (config_fields userConfig) k' ≠ Some l) →
  field_prop (baseDefineCollection userConfig writable σ).2 l "name" = Some (VStr k).
Proof.
  intros Halloc Hkeys Hk Hlast. rewrite baseDefineCollection_store.
  unfold field_prop. cbn [objects]. rewrite Hkeys.
  rewrite (visit_app _ _ _ ks1 (k :: ks2)), (visit_app _ _ _ [k] ks2).
  rewrite objects_visit_untouched by done.
  change (field_prop (visit (config_fields userConfig) "name" VStr [k]
                        (visit (config_fields userConfig) "name" VStr ks1 σ)) l "name"
          = Some (VStr k)).
  rewrite (visit_snoc _ _ _ [] k), Hk. cbn [visit foldl].
  rewrite field_prop_assign, decide_True; [done|]. split_and!; [done..|].
  by apply allocated_visit.
Qed.

(** *** Binding again *)

(** What the loop that writes the same value everywhere leaves at [l]:
    the object with the property set, when some key visited holds [l]. *)
Lemma objects_visit_const fields k v ks σ l :
  objects (visit fields k (λ _, v) ks σ) !! l =
    if decide (Exists (λ x, get_prop fields x = Some l) ks)
    then set_prop k v <$> objects σ !! l
    else objects σ !! l.
Proof.
  induction ks as [|x ks IH] using rev_ind.
  { rewrite decide_False; [done|]. by intros ?%Exists_nil. }
  rewrite visit_snoc.
  assert (Exists (λ x, get_prop fields x = Some l) (ks ++ [x])
          ↔ Exists (λ x, get_prop fields x = Some l) ks ∨ get_prop fields x = Some l)
    as Hex.
  { rewrite Exists_app, Exists_cons, Exists_nil. tauto. }
  destruct (get_prop fields x) as [l'|] eqn:Hx.
  - destruct (decide (l' = l)) as [->|Hne].
    + rewrite decide_True by (apply Hex; by right).
      unfold assign. cbn [objects]. rewrite lookup_alter, decide_True by done.
      rewrite IH. case_decide; [|done].
      destruct (objects σ !! l) as [o|]; [|done]. simpl.
      by rewrite ConstructorFacts.set_prop_set_prop.
    + rewrite objects_assign_ne by done. rewrite IH.
      destruct (decide (Exists _ ks)) as [Hks|Hks].
      * rewrite decide_True; [done|]. apply Hex. by left.
      * rewrite decide_False; [done|]. intros [?|?]%Hex; [done | congruence].
  - rewrite IH.
    destruct (decide (Exists _ ks)) as [Hks|Hks].
    + rewrite decide_True; [done|]. apply Hex. by left.
    + rewrite decide_False; [done|]. by intros [?|?]%Hex.
Qed.

(** X15.  The last call of [_setMeta] decides: binding a table and then
    another leaves the store that binding the second alone leaves, and
    binding the same table twice is binding it once. *)
Theorem setMeta_last_binding_wins meta fields t1 t2 σ :
  _setMeta getTableName meta fields t2 (_setMeta getTableName meta fields t1 σ)
  = _setMeta getTableName meta fields t2 σ.
Proof.
  unfold _setMeta. rewrite !for_in_fields_visit.
  set (v1 := VStr (getTableName t1)). set (v2 := VStr (getTableName t2)).
  assert (∀ (f : string → value) ks σ0,
            visit fields "collection" f ks σ0
            = Store (objects (visit fields "collection" f ks σ0)) (metas σ0)) as Hstore.
  { intros f ks σ0. rewrite <-(metas_visit fields "collection" f ks σ0).
    by destruct (visit fields "collection" f ks σ0). }
  rewrite (Hstore _ _ (Store (objects (visit _ _ _ _ _)) _)).
  rewrite (Hstore (λ _, v2) _ (Store (objects σ) _)).
  cbn [metas]. rewrite metas_visit. cbn [metas]. rewrite insert_insert_eq.
  f_equal. apply map_eq. intros l.
  rewrite !objects_visit_const. cbn [objects]. rewrite objects_visit_const. cbn [objects].
  case_decide; [|done].
  destruct (objects σ !! l) as [o|]; [|done]. simpl.
  by rewrite ConstructorFacts.set_prop_set_prop.
Qed.

End WithTable.
End StoreFacts.

(** ** The astro config schema *)

Module AstroFacts.
Import JS Zod Types PropsFacts ZodFacts SchemaFacts ConfigFacts FieldFacts.

Section WithRuntime.
Context `{DateRuntime}.

(** X16.  The astro config schema of the db integration looks at [db]
    only: a config is accepted exactly when [db] is absent or a valid
    db config, whatever else it holds; the parsed config has no
    property but [db], and has it only if the input has; and a [db]
    with a collection that the collection schema rejects makes the
    whole config fail. *)
Theorem astroConfig_only_db (cfg : list (string * value)) :
  (is_Some (parse AstroConfig.astroConfigWithDbSchema (VObj cfg)) ↔
     prop cfg "db" = VUndefined ∨ is_Some (parse Config.dbConfigSchema (prop cfg "db")))
  ∧ (∀ out, parse AstroConfig.astroConfigWithDbSchema (VObj cfg) = Some (VObj out) →
       ∀ k, is_Some (get_prop out k) → k = "db" ∧ is_Some (get_prop cfg "db"))
  ∧ (∀ db collections name c,
       get_prop cfg "db" = Some (VObj db) →
       get_prop db "collections" = Some (VObj collections) →
       get_prop collections name = Some c →
       collectionSchema c = None →
       parse AstroConfig.astroConfigWithDbSchema (VObj cfg) = None).
Proof.
  assert (is_Some (parse AstroConfig.astroConfigWithDbSchema (VObj cfg)) ↔
          prop cfg "db" = VUndefined ∨ is_Some (parse Config.dbConfigSchema (prop cfg "db")))
    as Hiff.
  { rewrite parse_obj_is_Some. unfold AstroConfig.astroConfigWithDbSchema. simpl.
    rewrite Forall_cons, Forall_nil. simpl.
    destruct (prop cfg "db"); simpl; split; eauto; try tauto;
      intros [?|?]; done. }
  split_and!; [done| |].
  - intros out (? & ? & [= <-] & [= <-] & Hsh)%parse_Some_inv k Hk.
    assert (Forall (λ ks : string * schema, ∀ r, ks.2 VUndefined = Some r → r = VUndefined)
              (shape AstroConfig.astroConfigWithDbSchema)) as Hundef.
    { repeat constructor. simpl. congruence. }
    destruct (parse_shape_only_given _ _ _ k Hundef Hsh Hk) as [Hcfg Hin].
    apply elem_of_cons in Hin as [->|[]%elem_of_nil]. done.
  - intros db collections name c Hdb Hc Hname Hbad. apply eq_None_not_Some.
    rewrite Hiff, (prop_Some _ _ _ Hdb).
    intros [?|Hsome]; [done|].
    by rewrite (dbConfigSchema_bad_collection db collections name c) in Hsome.
Qed.

End WithRuntime.
End AstroFacts.

(** ** The properties above on examples *)

Module MoreExamples.
Import JS Zod Types Define Sample SampleIso.
Import PropsFacts ZodFacts SchemaFacts ConfigFacts DefineFacts.
Import FieldFacts CollectionFacts ConstructorFacts StoreFacts.

#[local] Existing Instance Sample.runtime.

(** *** Fields *)

Lemma fieldSchema_dispatch_witness :
  (numberFieldSchema, "number") ∈ tagged_schemas
  ∧ prop score "type" = VStr "number"
  ∧ fieldSchema (VObj score) = parse numberFieldSchema (VObj score)
  ∧ ∀ o' tag', (o', tag') ∈ tagged_schemas → tag' ≠ "number" →
               parse o' (VObj score) = None.
Proof.
  assert ((numberFieldSchema, "number") ∈ tagged_schemas) as Hin by (right; left).
  split_and!; [exact Hin | reflexivity | |];
    apply (fieldSchema_dispatch numberFieldSchema "number" score Hin eq_refl).
Defined.

Lemma fieldSchema_strips_witness :
  fieldSchema (VObj score)
  = Some (VObj [("type", VStr "number"); ("default", VNum (Finite 3 0))])
  ∧ ∃ o tag, (o, tag) ∈ tagged_schemas ∧ prop score "type" = VStr tag
      ∧ ∀ k, is_Some (get_prop [("type", VStr "number"); ("default", VNum (Finite 3 0))] k) →
             is_Some (get_prop score k) ∧ k ∈ keys (shape o).
Proof.
  split; [reflexivity|].
  apply (fieldSchema_strips score
           [("type", VStr "number"); ("default", VNum (Finite 3 0))]).
  reflexivity.
Defined.

Lemma fieldSchema_keeps_options_witness :
  fieldSchema (VObj (Config.field.text (Some title_opts)))
  = Some (VObj [("label", VStr "Title"); ("optional", VBool true);
                ("unique", VBool false); ("type", VStr "text");
                ("multiline", VBool false); ("default", VUndefined)])
  ∧ get_prop [("label", VStr "Title"); ("optional", VBool true);
              ("unique", VBool false); ("type", VStr "text");
              ("multiline", VBool false); ("default", VUndefined)] "multiline"
    = get_prop (Config.field.text (Some title_opts)) "multiline".
Proof.
  split; [reflexivity|].
  apply (fieldSchema_keeps_options (Config.field.text (Some title_opts))
           [("label", VStr "Title"); ("optional", VBool true);
            ("unique", VBool false); ("type", VStr "text");
            ("multiline", VBool false); ("default", VUndefined)]);
    reflexivity.
Defined.

(** The runtime of [SampleIso] parses the ISO string of the default of
    [starts] back. *)
Lemma starts_round_trip :
  @iso_round_trip SampleIso.runtime (VNum (Finite 1700000000000 0)).
Proof.
  intros t [= <-]. exists 1700000000000%Z. split; by vm_compute.
Defined.

Lemma fieldSchema_idempotent_witness :
  @fieldSchema SampleIso.runtime (VObj starts)
  = Some (VObj [("type", VStr "date"); ("default", VStr "2023-11-14T22:13:20.000Z")])
  ∧ (∀ data, VObj starts = VObj data → prop data "type" = VStr "date" →
             @iso_round_trip SampleIso.runtime (prop data "default"))
  ∧ @fieldSchema SampleIso.runtime
      (VObj [("type", VStr "date"); ("default", VStr "2023-11-14T22:13:20.000Z")])
    = Some (VObj [("type", VStr "date"); ("default", VStr "2023-11-14T22:13:20.000Z")]).
Proof.
  assert (∀ data, VObj starts = VObj data → prop data "type" = VStr "date" →
                  @iso_round_trip SampleIso.runtime (prop data "default")) as Hdate.
  { intros data [= <-] _. apply starts_round_trip. }
  split_and!; [by vm_compute | exact Hdate |].
  apply (@fieldSchema_idempotent SampleIso.runtime (VObj starts)); [by vm_compute | exact Hdate].
Defined.

(** *** Collections *)

Lemma events_round_trip : @dates_round_trip SampleIso.runtime events.
Proof.
  intros fields k f [= <-] Hk Ht. simpl in Hk.
  repeat case_decide; simplify_eq.
  apply starts_round_trip.
Defined.

Lemma collectionSchema_idempotent_witness :
  @collectionSchema SampleIso.runtime (VObj events)
  = Some (VObj [
      ("fields", VObj [
         ("at", VObj [("type", VStr "date"); ("default", VStr "2023-11-14T22:13:20.000Z")]);
         ("host", VObj [("type", VStr "text");
                        ("references", VFun (Some (VObj [("type", VStr "number")])))]) ]);
      ("indexes", VObj [("by_host", VObj [("on", VStr "host"); ("unique", VBool false)])]);
      ("writable", VBool true) ])
  ∧ (∀ data, VObj events = VObj data → @dates_round_trip SampleIso.runtime data)
  ∧ @collectionSchema SampleIso.runtime (VObj [
      ("fields", VObj [
         ("at", VObj [("type", VStr "date"); ("default", VStr "2023-11-14T22:13:20.000Z")]);
         ("host", VObj [("type", VStr "text");
                        ("references", VFun (Some (VObj [("type", VStr "number")])))]) ]);
      ("indexes", VObj [("by_host", VObj [("on", VStr "host"); ("unique", VBool false)])]);
      ("writable", VBool true) ])
    = Some (VObj [
      ("fields", VObj [
         ("at", VObj [("type", VStr "date"); ("default", VStr "2023-11-14T22:13:20.000Z")]);
         ("host", VObj [("type", VStr "text");
                        ("references", VFun (Some (VObj [("type", VStr "number")])))]) ]);
      ("indexes", VObj [("by_host", VObj [("on", VStr "host"); ("unique", VBool false)])]);
      ("writable", VBool true) ]).
Proof.
  assert (∀ data, VObj events = VObj data → @dates_round_trip SampleIso.runtime data)
    as Hdates by (intros data [= <-]; apply events_round_trip).
  split_and!; [by vm_compute | exact Hdates |].
  apply (@collectionSchema_idempotent SampleIso.runtime (VObj events));
    [by vm_compute | exact Hdates].
Defined.

(** *** Constructors *)

Lemma constructed_field_validity_witness :
  (Config.field.text, textFieldSchema, "text") ∈ config_constructors
  ∧ NoDup (keys title_opts)
  ∧ get_prop title_opts "type" = None
  ∧ is_Some (fieldSchema (VObj (Config.field.text None)))
  ∧ (is_Some (fieldSchema (VObj (Config.field.text (Some title_opts)))) ↔
     ∀ k s, (k, s) ∈ shape textFieldSchema → is_Some (get_prop title_opts k) →
            is_Some (s (prop title_opts k))).
Proof.
  assert ((Config.field.text, textFieldSchema, "text") ∈ config_constructors)
    as Hin by (right; right; left).
  assert (NoDup (keys title_opts)) as Hobj by by_compute.
  split_and!; [exact Hin | exact Hobj | reflexivity | |];
    apply (constructed_field_validity Config.field.text textFieldSchema "text"
             title_opts Hin Hobj eq_refl).
Defined.


Lemma defined_collection_validity_witness :
  (Config.defineCollection, false)
    ∈ [(Config.defineCollection, false); (Config.defineWritableCollection, true)]
  ∧ NoDup (keys site_config)
  ∧ (is_Some (collectionSchema (VObj (Config.defineCollection site_config))) ↔
       is_Some (fieldsSchema (prop site_config "fields"))
       ∧ is_Some (z_optional (z_record (parse indexSchema)) (prop site_config "indexes"))
       ∧ is_Some (z_optional (z_array (parse foreignKeysSchema))
                    (prop site_config "foreignKeys"))
       ∧ is_Some (z_optional z_function (prop site_config "_setMeta")))
  ∧ ∀ out, collectionSchema (VObj (Config.defineCollection site_config)) = Some (VObj out) →
           get_prop out "writable" = Some (VBool false).
Proof.
  assert (NoDup (keys site_config)) as Hobj by by_compute.
  split_and!; [left | exact Hobj | |];
    apply (defined_collection_validity Config.defineCollection false site_config
             ltac:(left) Hobj).
Defined.

Lemma define_last_tag_wins_witness :
  NoDup (keys site_config)
  ∧ Config.defineCollection (Config.defineWritableCollection site_config)
    = Config.defineCollection site_config
  ∧ Config.defineWritableCollection (Config.defineCollection site_config)
    = Config.defineWritableCollection site_config.
Proof.
  assert (NoDup (keys site_config)) as Hobj by by_compute.
  split_and!; [exact Hobj | |]; apply (define_last_tag_wins site_config Hobj).
Defined.

(** *** The store *)

Lemma collections_bind_separately_witness :
  is_Some (table (baseDefineCollection blog_config false blog_store).1
             (baseDefineCollection blog_config false blog_store).2)
  ∧ ∀ t σ1 σ2,
      (call_setMeta table_name
         (baseDefineCollection aliased_config true
            (baseDefineCollection blog_config false blog_store).2).1 t σ1 = Some σ2 →
       table (baseDefineCollection blog_config false blog_store).1 σ2
       = table (baseDefineCollection blog_config false blog_store).1 σ1)
      ∧ (call_setMeta table_name
           (baseDefineCollection blog_config false blog_store).1 t σ1 = Some σ2 →
         table (baseDefineCollection aliased_config true
                  (baseDefineCollection blog_config false blog_store).2).1 σ2
         = table (baseDefineCollection aliased_config true
                    (baseDefineCollection blog_config false blog_store).2).1 σ1).
Proof.
  assert (is_Some (table (baseDefineCollection blog_config false blog_store).1
                     (baseDefineCollection blog_config false blog_store).2)) as Hcell
    by (by eexists).
  split; [exact Hcell|].
  apply (collections_bind_separately table_name blog_config false blog_store
           aliased_config true _ Hcell).
Defined.

Lemma shared_field_gets_last_key_witness :
  is_Some (objects blog_store !! 0)
  ∧ keys (config_fields aliased_config) = (["id"] ++ "key" :: ["title"])%list
  ∧ get_prop (config_fields aliased_config) "key" = Some 0
  ∧ (∀ k', k' ∈ ["title"] → get_prop (config_fields aliased_config) k' ≠ Some 0)
  ∧ field_prop (baseDefineCollection aliased_config false blog_store).2 0 "name"
    = Some (VStr "key").
Proof.
  assert (is_Some (objects blog_store !! 0)) as Hobj by (by eexists).
  assert (∀ k', k' ∈ ["title"] → get_prop (config_fields aliased_config) k' ≠ Some 0)
    as Hlast by (by intros k' [->|[]%elem_of_nil]%elem_of_cons).
  split_and!; [exact Hobj | reflexivity | reflexivity | exact Hlast |].
  apply (shared_field_gets_last_key aliased_config false blog_store 0
           ["id"] "key" ["title"] Hobj eq_refl eq_refl Hlast).
Defined.

End MoreExamples.
